(** * blueprint: the request handler, its sliding-window rate limiter and the
    write-through cache, embedded in Rocq.

    Sources embedded here:
    - [handler/blueprint.go]: [Metrics], [RateLimiter], [NewBlueprint], [Call],
      [validateRequest], [processBusinessLogic], [checkRateLimit],
      [recordMetrics], [incrementCacheHit], [incrementCacheMiss];
    - [model/other/other.go], the part that declares [package cache]:
      [CacheStats], [NewCache], [NewCacheWithOptions], [Set], [SetWithTTL],
      [Get], [Delete], [GetBatch], [createKey], [incrementStats],
      [incrementStatsBy].

    Conventions.  A [time.Time] is an integer number of nanoseconds on the
    monotonic clock and a [time.Duration] an integer number of nanoseconds.
    [uint64] counters are integers with the wrap-around modulo 2^64 written
    out.  A Go [string] and a [[]byte] are both sequences of bytes, i.e. a
    [string] of 8-bit [ascii].  A Go [error] is [option error], [None] being
    [nil].  Locks are not modelled: every method body below is a critical
    section of the lock it takes (or touches state only through
    [incrementStatsBy], which is one), so a method is a function from the
    state before to the state after. *)

From Stdlib Require Import ZArith String Ascii List Lia Bool.
From stdpp Require Import base gmap strings list pretty.

Local Open Scope string_scope.
Local Open Scope list_scope.
Local Open Scope Z_scope.

(* ===================================================================== *)
(** ** Go scalars *)
(* ===================================================================== *)

(** [uint64] arithmetic wraps modulo 2^64. *)
Definition wrap_u64 (z : Z) : Z := z mod 2 ^ 64.

(** [int64] arithmetic wraps into [-2^63, 2^63). *)
Definition wrap_i64 (z : Z) : Z := (z + 2 ^ 63) mod 2 ^ 64 - 2 ^ 63.

(** [time.Duration] constants, in nanoseconds. *)
Definition Millisecond : Z := 1000000.
Definition Second : Z := 1000 * Millisecond.
Definition Minute : Z := 60 * Second.
Definition Hour : Z := 60 * Minute.

(** [t.After(u)] and [t.Add(d)] of package [time]. *)
Definition Time_After (t u : Z) : bool := u <? t.
Definition Time_Add (t d : Z) : Z := t + d.

(** [len(s)] of a slice, a Go [int]. *)
Definition len {A} (l : list A) : Z := Z.of_nat (length l).

(* ===================================================================== *)
(** ** Errors *)
(* ===================================================================== *)

(** A Go [error] value.  [redis_Nil] is the sentinel [redis.Nil];
    [errors_New] stands for [errors.New], [errors.Errorf], [fmt.Errorf] and
    for the errors that libraries build; [errors_Wrap] for [errors.Wrap] and
    [errors.Wrapf] around a cause. *)
Inductive error : Type :=
| redis_Nil
| errors_New (msg : string)
| errors_Wrap (cause : error) (msg : string).

(** The pair [(value, err)] a fallible Go call returns. *)
Inductive result (A : Type) : Type :=
| Ok (a : A)
| Err (e : error).
Arguments Ok {A} a.
Arguments Err {A} e.

(** [errors.Wrap(err, msg)]: nil when [err] is nil. *)
Definition Wrap (err : option error) (msg : string) : option error :=
  match err with
  | None => None
  | Some e => Some (errors_Wrap e msg)
  end.

(** [err.Error()]. *)
Fixpoint Error (e : error) : string :=
  match e with
  | redis_Nil => "redis: nil"
  | errors_New msg => msg
  | errors_Wrap cause msg => msg +:+ ": " +:+ Error cause
  end.

(** [err == redis.Nil]. *)
Definition is_redis_Nil (e : error) : bool :=
  match e with
  | redis_Nil => true
  | _ => false
  end.

(* ===================================================================== *)
(** ** The collaborators: the key-value backend and the JSON encoder *)
(* ===================================================================== *)

(** The commands of the backend that the cache uses, as a capability over
    the backend's state [B]: [SETEX key ttl data], [GET key] and
    [DEL key...].  A reply of [GET] is the payload, [redis.Nil] for an absent
    key, or another error; [DEL] replies with the number of keys it removed. *)
Class Backend (B : Type) := {
  redis_SetEx : B -> string -> string -> Z -> B * option error;
  redis_Get : B -> string -> B * result string;
  redis_Del : B -> list string -> B * result Z
}.

(** [json.Marshal] and [json.Unmarshal] at the type [V] of the cached
    values. *)
Class Codec (V : Type) := {
  json_Marshal : V -> result string;
  json_Unmarshal : string -> result V
}.

(** What a method does to the outside, in order: the commands it sent with
    their replies, and the pauses it made. *)
Inductive Effect : Type :=
| EvSetEx (key data : string) (ttl : Z) (reply : option error)
| EvGet (key : string) (reply : result string)
| EvDel (keys : list string) (reply : result Z)
| EvExec (keys : list string) (replies : list (result string))
| EvSleep (d : Z).

(** The world behind a [*redis.Client]: the backend, and the effects so far. *)
Record World (B : Type) := mkWorld {
  server : B;
  effects : list Effect
}.
Arguments mkWorld {B} server effects.
Arguments server {B} w.
Arguments effects {B} w.

Section Client.
Context {B : Type} `{Backend B}.

(** [client.SetEx(ctx, key, data, ttl).Err()]. *)
Definition SetEx (w : World B) (key data : string) (ttl : Z) : World B * option error :=
  let '(s, reply) := redis_SetEx (server w) key data ttl in
  (mkWorld s (effects w ++ [EvSetEx key data ttl reply]), reply).

(** [client.Get(ctx, key).Bytes()]. *)
Definition Get (w : World B) (key : string) : World B * result string :=
  let '(s, reply) := redis_Get (server w) key in
  (mkWorld s (effects w ++ [EvGet key reply]), reply).

(** [client.Del(ctx, keys...).Result()]. *)
Definition Del (w : World B) (keys : list string) : World B * result Z :=
  let '(s, reply) := redis_Del (server w) keys in
  (mkWorld s (effects w ++ [EvDel keys reply]), reply).

(** The queued [GET]s of a pipeline, run by the backend one after the other. *)
Fixpoint pipeline_Gets (s : B) (keys : list string) : B * list (result string) :=
  match keys with
  | [] => (s, [])
  | key :: keys' =>
      let '(s1, reply) := redis_Get s key in
      let '(s2, replies) := pipeline_Gets s1 keys' in
      (s2, reply :: replies)
  end.

(** The error [pipe.Exec] returns: the first error among its commands. *)
Fixpoint cmdsFirstErr (cmds : list (result string)) : option error :=
  match cmds with
  | [] => None
  | Ok _ :: cmds' => cmdsFirstErr cmds'
  | Err e :: _ => Some e
  end.

(** [pipe.Exec(ctx)] of a pipeline on which [pipe.Get(ctx, key)] was queued
    for each of [keys]: the commands with their replies, and the error. *)
Definition Exec (w : World B) (keys : list string)
  : World B * (list (result string) * option error) :=
  let '(s, cmds) := pipeline_Gets (server w) keys in
  (mkWorld s (effects w ++ [EvExec keys cmds]), (cmds, cmdsFirstErr cmds)).

(** [time.Sleep(d)]. *)
Definition Sleep (w : World B) (d : Z) : World B :=
  mkWorld (server w) (effects w ++ [EvSleep d]).

(** The queued [SETEX]s of a pipeline, run by the backend one after the
    other; each is recorded with its reply. *)
Fixpoint pipeline_SetExs (w : World B) (cmds : list (string * string)) (ttl : Z)
  : World B * list (option error) :=
  match cmds with
  | [] => (w, [])
  | (key, data) :: cmds' =>
      let '(w1, reply) := SetEx w key data ttl in
      let '(w2, replies) := pipeline_SetExs w1 cmds' ttl in
      (w2, reply :: replies)
  end.

(** The first error among the replies of a pipeline of writes. *)
Fixpoint repliesFirstErr (replies : list (option error)) : option error :=
  match replies with
  | [] => None
  | None :: replies' => repliesFirstErr replies'
  | Some e :: _ => Some e
  end.

(** [pipe.Exec(ctx)] of a pipeline on which [pipe.SetEx(ctx, key, data, ttl)]
    was queued for each of [cmds]: the error it returns. *)
Definition Exec_SetExs (w : World B) (cmds : list (string * string)) (ttl : Z)
  : World B * option error :=
  let '(w', replies) := pipeline_SetExs w cmds ttl in
  (w', repliesFirstErr replies).

End Client.

(* ===================================================================== *)
(** ** package cache *)
(* ===================================================================== *)

Module cache.

Definition defaultPrefix : string := "blueprint".
Definition defaultExpiration : Z := Hour.
(** The constant [maxRetries] of the package (the field of [Cache] has the
    same name in the source). *)
Definition const_maxRetries : Z := 3.
Definition retryDelay : Z := Millisecond * 100.

Record Options := mkOptions {
  Prefix : string;
  Expiration : Z;
  MaxRetries : Z
}.

Record CacheStats := mkCacheStats {
  Hits : Z;
  Misses : Z;
  Sets : Z;
  Deletes : Z
}.

(** [type Cache struct].  The field [redis] is the client, that is the world
    it talks to; [mu] guards [stats] and is not modelled. *)
Record Cache (B : Type) := mkCache {
  redis : World B;
  prefix : string;
  expiration : Z;
  maxRetries : Z;
  stats : CacheStats
}.
Arguments mkCache {B} redis prefix expiration maxRetries stats.
Arguments redis {B} c.
Arguments prefix {B} c.
Arguments expiration {B} c.
Arguments maxRetries {B} c.
Arguments stats {B} c.

Section Methods.
Context {B : Type} `{Backend B} {V : Type} `{Codec V}.

Definition NewCacheWithOptions (redis : World B) (opts : Options) : Cache B :=
  {| redis := redis;
     prefix := if String.eqb (Prefix opts) "" then defaultPrefix else Prefix opts;
     expiration := if Expiration opts =? 0 then defaultExpiration else Expiration opts;
     maxRetries := if MaxRetries opts =? 0 then const_maxRetries else MaxRetries opts;
     stats := mkCacheStats 0 0 0 0 |}.

Definition NewCache (redis : World B) : Cache B :=
  NewCacheWithOptions redis
    {| Prefix := defaultPrefix; Expiration := defaultExpiration;
       MaxRetries := const_maxRetries |}.

(** Assignments to [c.redis]'s world and to [c.stats]. *)
Definition with_redis (c : Cache B) (w : World B) : Cache B :=
  mkCache w (prefix c) (expiration c) (maxRetries c) (stats c).

Definition with_stats (c : Cache B) (st : CacheStats) : Cache B :=
  mkCache (redis c) (prefix c) (expiration c) (maxRetries c) st.

(** [fmt.Sprintf("%s:%s", c.prefix, key)]. *)
Definition createKey (c : Cache B) (key : string) : string :=
  prefix c +:+ ":" +:+ key.

Definition incrementStatsBy (c : Cache B) (statType : string) (count : Z) : Cache B :=
  let st := stats c in
  if String.eqb statType "hits" then
    with_stats c (mkCacheStats (wrap_u64 (Hits st + count)) (Misses st) (Sets st) (Deletes st))
  else if String.eqb statType "misses" then
    with_stats c (mkCacheStats (Hits st) (wrap_u64 (Misses st + count)) (Sets st) (Deletes st))
  else if String.eqb statType "sets" then
    with_stats c (mkCacheStats (Hits st) (Misses st) (wrap_u64 (Sets st + count)) (Deletes st))
  else if String.eqb statType "deletes" then
    with_stats c (mkCacheStats (Hits st) (Misses st) (Sets st) (wrap_u64 (Deletes st + count)))
  else c.

Definition incrementStats (c : Cache B) (statType : string) : Cache B :=
  incrementStatsBy c statType 1.

(** The loop [for i := 0; i < c.maxRetries; i++] of [Set], with [n] the
    number of iterations left. *)
Fixpoint Set_loop (n : nat) (i : Z) (c : Cache B) (fullKey data : string)
  (lastErr : option error) : Cache B * option error :=
  match n with
  | O =>
      (c, Wrap lastErr ("failed to set cache key " +:+ fullKey +:+ " after "
                          +:+ pretty (maxRetries c) +:+ " retries"))
  | S n' =>
      let '(w, err) := SetEx (redis c) fullKey data (expiration c) in
      let c := with_redis c w in
      match err with
      | None => (incrementStats c "sets", None)
      | Some e =>
          let c :=
            if i <? maxRetries c - 1
            then with_redis c (Sleep (redis c) (wrap_i64 (retryDelay * wrap_i64 (i + 1))))
            else c in
          Set_loop n' (i + 1) c fullKey data (Some e)
      end
  end.

(** [func (c *Cache) Set(ctx, key, value) error]. *)
Definition Cache_Set (c : Cache B) (key : string) (value : V) : Cache B * option error :=
  match json_Marshal value with
  | Err err => (c, Some (errors_Wrap err "failed to marshal value"))
  | Ok data =>
      let fullKey := createKey c key in
      Set_loop (Z.to_nat (maxRetries c)) 0 c fullKey data None
  end.

(** [func (c *Cache) SetWithTTL(ctx, key, value, ttl) error]. *)
Definition Cache_SetWithTTL (c : Cache B) (key : string) (value : V) (ttl : Z)
  : Cache B * option error :=
  match json_Marshal value with
  | Err err => (c, Some (errors_Wrap err "failed to marshal value"))
  | Ok data =>
      let fullKey := createKey c key in
      let '(w, err) := SetEx (redis c) fullKey data ttl in
      let c := with_redis c w in
      match err with
      | Some e => (c, Some (errors_Wrap e ("failed to set cache key " +:+ fullKey)))
      | None => (incrementStats c "sets", None)
      end
  end.

(** [func (c *Cache) Get(ctx, key, dest) error]: the result is the error,
    or the value decoded into [dest]. *)
Definition Cache_Get (c : Cache B) (key : string) : Cache B * result V :=
  let fullKey := createKey c key in
  let '(w, reply) := Get (redis c) fullKey in
  let c := with_redis c w in
  match reply with
  | Err err =>
      if is_redis_Nil err then
        (incrementStats c "misses",
         Err (errors_Wrap err ("key " +:+ fullKey +:+ " not found")))
      else (c, Err (errors_Wrap err ("failed to get cache key " +:+ fullKey)))
  | Ok data =>
      match json_Unmarshal data with
      | Err err => (c, Err (errors_Wrap err "failed to unmarshal cached value"))
      | Ok v => (incrementStats c "hits", Ok v)
      end
  end.

(** [func (c *Cache) Delete(ctx, keys...) error]. *)
Definition Cache_Delete (c : Cache B) (keys : list string) : Cache B * option error :=
  if len keys =? 0 then (c, None)
  else
    let fullKeys := map (createKey c) keys in
    let '(w, reply) := Del (redis c) fullKeys in
    let c := with_redis c w in
    match reply with
    | Err err => (c, Some (errors_Wrap err "failed to delete cache keys"))
    | Ok deleted =>
        let c := incrementStats c "deletes" in
        if negb (deleted =? len keys) then
          (c, Some (errors_New ("expected to delete " +:+ pretty (len keys)
                                  +:+ " keys, but deleted " +:+ pretty deleted)))
        else (c, None)
    end.

(** The loop [for i, cmd := range cmds] of [GetBatch]; [keys] and [cmds] run
    in step, [keys[i]] being the key of [cmds[i]]. *)
Fixpoint GetBatch_loop (keys : list string) (cmds : list (result string))
  (dest : gmap string V) (hits misses : Z) : gmap string V * Z * Z :=
  match keys, cmds with
  | key :: keys', cmd :: cmds' =>
      match cmd with
      | Ok data =>
          match json_Unmarshal data with
          | Ok value =>
              GetBatch_loop keys' cmds' (<[key := value]> dest) (wrap_u64 (hits + 1)) misses
          | Err _ => GetBatch_loop keys' cmds' dest hits misses
          end
      | Err err =>
          if is_redis_Nil err
          then GetBatch_loop keys' cmds' dest hits (wrap_u64 (misses + 1))
          else GetBatch_loop keys' cmds' dest hits misses
      end
  | _, _ => (dest, hits, misses)
  end.

(** [func (c *Cache) GetBatch(ctx, keys, dest) error]: the result is the
    cache, the map [dest] afterwards, and the error. *)
Definition Cache_GetBatch (c : Cache B) (keys : list string) (dest : gmap string V)
  : Cache B * gmap string V * option error :=
  let fullKeys := map (createKey c) keys in
  let '(w, (cmds, err)) := Exec (redis c) fullKeys in
  let c := with_redis c w in
  if match err with Some e => negb (is_redis_Nil e) | None => false end
  then (c, dest, Wrap err "failed to execute pipeline")
  else
    let '(dest, hits, misses) := GetBatch_loop keys cmds dest 0 0 in
    let c := incrementStatsBy c "hits" hits in
    let c := incrementStatsBy c "misses" misses in
    (c, dest, None).

(** [func (c *Cache) GetRaw(ctx, key) ([]byte, error)]. *)
Definition Cache_GetRaw (c : Cache B) (key : string) : Cache B * result string :=
  let fullKey := createKey c key in
  let '(w, reply) := Get (redis c) fullKey in
  let c := with_redis c w in
  match reply with
  | Err err =>
      if is_redis_Nil err then
        (incrementStats c "misses",
         Err (errors_Wrap err ("key " +:+ fullKey +:+ " not found")))
      else (c, Err (errors_Wrap err ("failed to get cache key " +:+ fullKey)))
  | Ok data => (incrementStats c "hits", Ok data)
  end.

(** The loop [for key, value := range items] of [SetBatch], over the items in
    the order the range visits them: the commands queued on the pipeline, or
    the error of the first value that does not serialize. *)
Fixpoint SetBatch_loop (c : Cache B) (items : list (string * V))
  (queued : list (string * string)) : result (list (string * string)) :=
  match items with
  | [] => Ok queued
  | (key, value) :: items' =>
      match json_Marshal value with
      | Err err => Err (errors_Wrap err ("failed to marshal value for key " +:+ key))
      | Ok data => SetBatch_loop c items' (queued ++ [(createKey c key, data)])
      end
  end.

(** [func (c *Cache) SetBatch(ctx, items, ttl) error]; [items] lists the
    entries of the Go map (its keys are distinct) in iteration order. *)
Definition Cache_SetBatch (c : Cache B) (items : list (string * V)) (ttl : Z)
  : Cache B * option error :=
  match SetBatch_loop c items [] with
  | Err err => (c, Some err)
  | Ok cmds =>
      let '(w, err) := Exec_SetExs (redis c) cmds ttl in
      let c := with_redis c w in
      match err with
      | Some e => (c, Some (errors_Wrap e "failed to execute pipeline"))
      | None => (incrementStatsBy c "sets" (wrap_u64 (len items)), None)
      end
  end.

(** [func (c *Cache) GetStats() CacheStats] and [func (c *Cache) ResetStats()]. *)
Definition Cache_GetStats (c : Cache B) : CacheStats := stats c.

Definition Cache_ResetStats (c : Cache B) : Cache B :=
  with_stats c (mkCacheStats 0 0 0 0).

End Methods.

End cache.

(* ===================================================================== *)
(** ** package handler: the rate limiter *)
(* ===================================================================== *)

Module handler.

(** [type RateLimiter struct { requests map[string][]time.Time; mu; limit int;
    window time.Duration }]. *)
Record RateLimiter := mkRateLimiter {
  requests : gmap string (list Z);
  limit : Z;
  window : Z
}.

(** The limiter that [NewBlueprint] builds. *)
Definition NewRateLimiter : RateLimiter :=
  {| requests := ∅; limit := 100; window := Minute |}.

(** The [for _, t := range requests] loop of [checkRateLimit]: [validRequests]
    starts as the nil slice and every [t] after [windowStart] is appended. *)
Definition validRequests_loop (windowStart : Z) (reqs : list Z) : list Z :=
  fold_left (fun valid t => if Time_After t windowStart then valid ++ [t] else valid)
            reqs [].

(** [func (b *Blueprint) checkRateLimit(ctx, identifier) bool].  The method
    reads and writes [b.rateLimiter] only, so it is stated on that field;
    [now] is the reading of [time.Now()]. *)
Definition checkRateLimit (rl : RateLimiter) (identifier : string) (now : Z)
  : RateLimiter * bool :=
  let windowStart := Time_Add now (- window rl) in
  match requests rl !! identifier with
  | None =>
      ({| requests := <[identifier := [now]]> (requests rl);
          limit := limit rl; window := window rl |}, true)
  | Some reqs =>
      let validRequests := validRequests_loop windowStart reqs in
      if len validRequests >=? limit rl then (rl, false)
      else
        let validRequests := validRequests ++ [now] in
        ({| requests := <[identifier := validRequests]> (requests rl);
            limit := limit rl; window := window rl |}, true)
  end.

(* ===================================================================== *)
(** ** handler: the request pipeline *)
(* ===================================================================== *)

Definition defaultTimeout : Z := 30 * Second.

(** [pb.CallRequest] and [pb.CallResponse]. *)
Record CallRequest := mkCallRequest { Name : string }.
Record CallResponse := mkCallResponse { Msg : string }.

(** [codes.Code] and the error [status.Error(code, msg)]. *)
Inductive Code : Type := InvalidArgument | ResourceExhausted | Internal.
Record Status := status_Error { code : Code; message : string }.

Record Metrics := mkMetrics {
  TotalRequests : Z;
  SuccessfulCalls : Z;
  FailedCalls : Z;
  CacheHits : Z;
  CacheMisses : Z;
  AvgResponseTime : Z
}.

(** [type Blueprint struct].  [Local], [Log] and [DB] are left out: the
    logger only writes log lines, and the one query [processBusinessLogic]
    sends to [DB] only decides whether a warning is logged. *)
Record Blueprint (B : Type) := mkBlueprint {
  Cache : cache.Cache B;
  metrics : Metrics;
  rateLimiter : RateLimiter
}.
Arguments mkBlueprint {B} Cache metrics rateLimiter.
Arguments Cache {B} b.
Arguments metrics {B} b.
Arguments rateLimiter {B} b.

(** What one [Call] reads from outside the handler: the clock in
    [checkRateLimit], the time [time.Since(start)] that the deferred hook
    measures, and [ctx.Err()] when [processBusinessLogic] polls [ctx.Done()]
    ([None] while the context is neither cancelled nor past its deadline). *)
Record Env := mkEnv {
  now : Z;
  elapsed : Z;
  ctx_Err : option error
}.

Section Methods.
Context {B : Type} `{Backend B} `{Codec CallResponse}.

Definition NewBlueprint (c : cache.Cache B) : Blueprint B :=
  {| Cache := c;
     metrics := mkMetrics 0 0 0 0 0 0;
     rateLimiter := NewRateLimiter |}.

Definition with_Cache (b : Blueprint B) (c : cache.Cache B) : Blueprint B :=
  mkBlueprint c (metrics b) (rateLimiter b).

Definition with_metrics (b : Blueprint B) (m : Metrics) : Blueprint B :=
  mkBlueprint (Cache b) m (rateLimiter b).

Definition with_rateLimiter (b : Blueprint B) (rl : RateLimiter) : Blueprint B :=
  mkBlueprint (Cache b) (metrics b) rl.

(** [func (b *Blueprint) validateRequest(req) error]; a nil [req] is [None]. *)
Definition validateRequest (req : option CallRequest) : option error :=
  match req with
  | None => Some (errors_New "request is nil")
  | Some r =>
      if String.eqb (Name r) "" then Some (errors_New "name is required")
      else if Z.of_nat (String.length (Name r)) >? 100
           then Some (errors_New "name is too long")
           else None
  end.

(** [func (b *Blueprint) processBusinessLogic(ctx, req, resp) error]. *)
Definition processBusinessLogic (env : Env) : option error :=
  match ctx_Err env with
  | Some err => Some err
  | None => None
  end.

(** [func (b *Blueprint) recordMetrics(duration, err)]; the division of
    [time.Duration] is the truncating division of [int64]. *)
Definition recordMetrics (b : Blueprint B) (duration : Z) (err : option error)
  : Blueprint B :=
  let m := metrics b in
  let total := wrap_u64 (TotalRequests m + 1) in
  let successful :=
    match err with None => wrap_u64 (SuccessfulCalls m + 1) | Some _ => SuccessfulCalls m end in
  let failed :=
    match err with None => FailedCalls m | Some _ => wrap_u64 (FailedCalls m + 1) end in
  let avg :=
    if AvgResponseTime m =? 0 then duration
    else Z.quot (wrap_i64 (AvgResponseTime m + duration)) 2 in
  with_metrics b (mkMetrics total successful failed (CacheHits m) (CacheMisses m) avg).

Definition incrementCacheHit (b : Blueprint B) : Blueprint B :=
  let m := metrics b in
  with_metrics b (mkMetrics (TotalRequests m) (SuccessfulCalls m) (FailedCalls m)
                            (wrap_u64 (CacheHits m + 1)) (CacheMisses m)
                            (AvgResponseTime m)).

Definition incrementCacheMiss (b : Blueprint B) : Blueprint B :=
  let m := metrics b in
  with_metrics b (mkMetrics (TotalRequests m) (SuccessfulCalls m) (FailedCalls m)
                            (CacheHits m) (wrap_u64 (CacheMisses m + 1))
                            (AvgResponseTime m)).

(** [req.Name], read only after [validateRequest] has excluded a nil [req]. *)
Definition req_Name (req : option CallRequest) : string :=
  match req with
  | Some r => Name r
  | None => ""
  end.

(** The body of [Call] below its first [defer], up to each [return]. *)
Definition Call_body (b : Blueprint B) (env : Env) (req : option CallRequest)
  : Blueprint B * (option CallResponse * option Status) :=
  match validateRequest req with
  | Some err => (b, (None, Some (status_Error InvalidArgument (Error err))))
  | None =>
      let '(rl, ok) := checkRateLimit (rateLimiter b) (req_Name req) (now env) in
      let b := with_rateLimiter b rl in
      if negb ok then (b, (None, Some (status_Error ResourceExhausted "rate limit exceeded")))
      else
        let cacheKey := "call:" +:+ req_Name req in
        let '(c, got) := cache.Cache_Get (Cache b) cacheKey in
        let b := with_Cache b c in
        match got with
        | Ok cachedResponse =>
            let b := incrementCacheHit b in
            (b, (Some cachedResponse, None))
        | Err _ =>
            let b := incrementCacheMiss b in
            let response :=
              mkCallResponse ("Hello " +:+ req_Name req +:+ " from Forex Platform") in
            match processBusinessLogic env with
            | Some _ => (b, (None, Some (status_Error Internal "internal server error")))
            | None =>
                let '(c, _) :=
                  cache.Cache_SetWithTTL (Cache b) cacheKey response (5 * Minute) in
                (with_Cache b c, (Some response, None))
            end
        end
  end.

(** [func (b *Blueprint) Call(ctx, req)], which returns a response and an error: the body,
    then the deferred [b.recordMetrics(time.Since(start), nil)]. *)
Definition Call (b : Blueprint B) (env : Env) (req : option CallRequest)
  : Blueprint B * (option CallResponse * option Status) :=
  let '(b, ret) := Call_body b env req in
  (recordMetrics b (elapsed env) None, ret).

End Methods.

End handler.

Import cache.
Import handler.

(* ===================================================================== *)
(** ** package config *)
(* ===================================================================== *)

Module config.

(** The names of the environment variables. *)
Definition GPRC_HOST : string := "GPRC_HOST".
Definition GRPC_PORT : string := "GRPC_PORT".
Definition REDIS_URL : string := "REDIS_URL".
Definition REDIS_PASSWORD : string := "REDIS_PASSWORD".
Definition MYSQL_HOST : string := "MYSQL_HOST".
Definition MYSQL_PORT : string := "MYSQL_PORT".
Definition MYSQL_USER : string := "MYSQL_USER".
Definition MYSQL_PASSWORD : string := "MYSQL_PASSWORD".

Record Setting := mkSetting {
  Version : string;
  LocalPath : string
}.

Record Logger := mkLogger {
  DisableCaller : bool;
  DisableStacktrace : bool;
  Encoding : string;
  Level : string;
  LogFile : string
}.

Record Redis := mkRedis {
  RedisAddr : string;
  RedisPassword : string;
  RedisDB : string;
  RedisDefaultDB : string;
  MinIdleConn : Z;
  PoolSize : Z;
  PoolTimeout : Z;
  DB : Z
}.

Record MySQL := mkMySQL {
  MysqlHost : string;
  MysqlPort : string;
  MysqlUser : string;
  MysqlPassword : string;
  MysqlDBName : string
}.

Record GRPC := mkGRPC {
  Host : string;
  Port : string;
  MaxConnectionIdle : Z;
  Timeout : Z;
  MaxConnectionAge : Z
}.

(** [type Config struct]; the fields are named after their types in the
    source. *)
Record Config := mkConfig {
  Config_Setting : Setting;
  Config_GRPC : GRPC;
  Config_Logger : Logger;
  Config_Redis : Redis;
  Config_MySQL : MySQL
}.

(** [os.Getenv(key)]: the empty string when the variable is not set. *)
Definition Getenv (env : gmap string string) (key : string) : string :=
  default "" (env !! key).

(** The assignments [c.Redis.RedisAddr = v] and the like. *)
Definition set_RedisAddr (c : Config) (v : string) : Config :=
  let r := Config_Redis c in
  mkConfig (Config_Setting c) (Config_GRPC c) (Config_Logger c)
           (mkRedis v (RedisPassword r) (RedisDB r) (RedisDefaultDB r) (MinIdleConn r)
                    (PoolSize r) (PoolTimeout r) (DB r))
           (Config_MySQL c).

Definition set_RedisPassword (c : Config) (v : string) : Config :=
  let r := Config_Redis c in
  mkConfig (Config_Setting c) (Config_GRPC c) (Config_Logger c)
           (mkRedis (RedisAddr r) v (RedisDB r) (RedisDefaultDB r) (MinIdleConn r)
                    (PoolSize r) (PoolTimeout r) (DB r))
           (Config_MySQL c).

Definition set_GRPC_Host (c : Config) (v : string) : Config :=
  let g := Config_GRPC c in
  mkConfig (Config_Setting c)
           (mkGRPC v (Port g) (MaxConnectionIdle g) (Timeout g) (MaxConnectionAge g))
           (Config_Logger c) (Config_Redis c) (Config_MySQL c).

Definition set_GRPC_Port (c : Config) (v : string) : Config :=
  let g := Config_GRPC c in
  mkConfig (Config_Setting c)
           (mkGRPC (Host g) v (MaxConnectionIdle g) (Timeout g) (MaxConnectionAge g))
           (Config_Logger c) (Config_Redis c) (Config_MySQL c).

Definition set_MysqlHost (c : Config) (v : string) : Config :=
  let m := Config_MySQL c in
  mkConfig (Config_Setting c) (Config_GRPC c) (Config_Logger c) (Config_Redis c)
           (mkMySQL v (MysqlPort m) (MysqlUser m) (MysqlPassword m) (MysqlDBName m)).

Definition set_MysqlPort (c : Config) (v : string) : Config :=
  let m := Config_MySQL c in
  mkConfig (Config_Setting c) (Config_GRPC c) (Config_Logger c) (Config_Redis c)
           (mkMySQL (MysqlHost m) v (MysqlUser m) (MysqlPassword m) (MysqlDBName m)).

Definition set_MysqlUser (c : Config) (v : string) : Config :=
  let m := Config_MySQL c in
  mkConfig (Config_Setting c) (Config_GRPC c) (Config_Logger c) (Config_Redis c)
           (mkMySQL (MysqlHost m) (MysqlPort m) v (MysqlPassword m) (MysqlDBName m)).

Definition set_MysqlPassword (c : Config) (v : string) : Config :=
  let m := Config_MySQL c in
  mkConfig (Config_Setting c) (Config_GRPC c) (Config_Logger c) (Config_Redis c)
           (mkMySQL (MysqlHost m) (MysqlPort m) (MysqlUser m) v (MysqlDBName m)).

(** One block [v := os.Getenv(K); if v != "" { c.F = v; parseError[K] = v }]
    of [NewConfig], on the configuration and on the map [parseError]. *)
Definition load_field (set : Config -> string -> Config) (v : string) (c : Config) : Config :=
  if negb (String.eqb v "") then set c v else c.

Definition load_seen (key v : string) (parseError : gmap string string) : gmap string string :=
  if negb (String.eqb v "") then <[key := v]> parseError else parseError.

(** [func NewConfig() *Config], reading the environment [env]; [None] is the
    panic "Env vars not set see list". *)
Definition NewConfig (env : gmap string string) : option Config :=
  let setting := mkSetting "1.0.0" "./locales/*/*" in
  let logger := mkLogger false false "" "" "blueprint.log" in
  let redis := mkRedis "" "" "" "" 0 0 0 0 in
  let gprc := mkGRPC "" "" 0 0 0 in
  let mysql := mkMySQL "" "" "" "" "" in
  (* the composite literal names GRPC, Logger, Redis and MySQL only:
     [setting] is built and never stored *)
  let c := mkConfig (mkSetting "" "") gprc logger redis mysql in
  let parseError : gmap string string :=
    <[GPRC_HOST := ""]> (<[GRPC_PORT := ""]> (<[REDIS_URL := ""]> (<[REDIS_PASSWORD := ""]>
    (<[MYSQL_HOST := ""]> (<[MYSQL_PORT := ""]> (<[MYSQL_USER := ""]>
    (<[MYSQL_PASSWORD := ""]> ∅))))))) in
  let redisURL := Getenv env REDIS_URL in
  let c := load_field set_RedisAddr redisURL c in
  let parseError := load_seen REDIS_URL redisURL parseError in
  let redisPassword := Getenv env REDIS_PASSWORD in
  let c := load_field set_RedisPassword redisPassword c in
  let parseError := load_seen REDIS_PASSWORD redisPassword parseError in
  let gRPCHost := Getenv env GPRC_HOST in
  let c := load_field set_GRPC_Host gRPCHost c in
  let parseError := load_seen GPRC_HOST gRPCHost parseError in
  let gRPCPort := Getenv env GRPC_PORT in
  let c := load_field set_GRPC_Port gRPCPort c in
  let parseError := load_seen GRPC_PORT gRPCPort parseError in
  let mysqlHost := Getenv env MYSQL_HOST in
  let c := load_field set_MysqlHost mysqlHost c in
  let parseError := load_seen MYSQL_HOST mysqlHost parseError in
  let mysqlPort := Getenv env MYSQL_PORT in
  let c := load_field set_MysqlPort mysqlPort c in
  let parseError := load_seen MYSQL_PORT mysqlPort parseError in
  let mysqlUser := Getenv env MYSQL_USER in
  let c := load_field set_MysqlUser mysqlUser c in
  let parseError := load_seen MYSQL_USER mysqlUser parseError in
  let mysqlPassword := Getenv env MYSQL_PASSWORD in
  let c := load_field set_MysqlPassword mysqlPassword c in
  let parseError := load_seen MYSQL_PASSWORD mysqlPassword parseError in
  let exitParse := existsb (fun kv => String.eqb kv.2 "") (map_to_list parseError) in
  if exitParse then None else Some c.

End config.

(* ===================================================================== *)
(** ** package redis: the options of the client *)
(* ===================================================================== *)

Module redis.

Definition defaultPoolSize : Z := 100.
Definition defaultMinIdleConns : Z := 10.
Definition defaultPoolTimeout : Z := 30 * Second.
Definition defaultDialTimeout : Z := 5 * Second.
Definition defaultReadTimeout : Z := 3 * Second.
Definition defaultWriteTimeout : Z := 3 * Second.
Definition defaultMaxRetries : Z := 3.
Definition defaultReadBufferSize : Z := 32 * 1024.
Definition defaultWriteBufferSize : Z := 32 * 1024.

Record RedisOptions := mkRedisOptions {
  Addr : string;
  Password : string;
  DB : Z;
  PoolSize : Z;
  MinIdleConns : Z;
  PoolTimeout : Z;
  DialTimeout : Z;
  ReadTimeout : Z;
  WriteTimeout : Z;
  MaxRetries : Z;
  MaxRetryBackoff : Z;
  MinRetryBackoff : Z;
  ReadBufferSize : Z;
  WriteBufferSize : Z;
  Protocol : Z
}.

(** [func buildOptions(cfg *config.Config) RedisOptions]. *)
Definition buildOptions (cfg : config.Config) : RedisOptions :=
  let r := config.Config_Redis cfg in
  let Addr := config.RedisAddr r in
  let PoolSize := config.PoolSize r in
  let MinIdleConns := config.MinIdleConn r in
  let PoolTimeout := wrap_i64 (wrap_i64 (config.PoolTimeout r) * Second) in
  let Addr := if String.eqb Addr "" then "localhost:6379" else Addr in
  let PoolSize := if PoolSize =? 0 then defaultPoolSize else PoolSize in
  let MinIdleConns := if MinIdleConns =? 0 then defaultMinIdleConns else MinIdleConns in
  let PoolTimeout := if PoolTimeout =? 0 then defaultPoolTimeout else PoolTimeout in
  {| Addr := Addr;
     Password := "";
     DB := 0;
     PoolSize := PoolSize;
     MinIdleConns := MinIdleConns;
     PoolTimeout := PoolTimeout;
     DialTimeout := defaultDialTimeout;
     ReadTimeout := defaultReadTimeout;
     WriteTimeout := defaultWriteTimeout;
     MaxRetries := defaultMaxRetries;
     MaxRetryBackoff := 0;
     MinRetryBackoff := 0;
     ReadBufferSize := defaultReadBufferSize;
     WriteBufferSize := defaultWriteBufferSize;
     Protocol := 3 |}.

End redis.


(* ===================================================================== *)
(** ** Reference instances, used in the examples *)
(* ===================================================================== *)

(** An in-memory backend with the replies of a Redis server.  [kv] maps each
    present key to its payload and time to live; the head of [faults], when
    there is one, decides the next command: [Some e] makes it fail with [e]
    and change nothing.  Expiry is not modelled (no time passes between the
    commands of one call). *)
Record MemRedis := mkMemRedis {
  kv : gmap string (string * Z);
  faults : list (option error)
}.

Definition next_fault (s : MemRedis) : option error * MemRedis :=
  match faults s with
  | [] => (None, s)
  | f :: fs => (f, mkMemRedis (kv s) fs)
  end.

(** [DEL]: removes the keys in order and counts those that were present. *)
Fixpoint mem_del (m : gmap string (string * Z)) (keys : list string)
  : gmap string (string * Z) * Z :=
  match keys with
  | [] => (m, 0)
  | key :: keys' =>
      match m !! key with
      | Some _ => let '(m', n) := mem_del (delete key m) keys' in (m', n + 1)
      | None => mem_del m keys'
      end
  end.

#[export] Instance MemRedis_Backend : Backend MemRedis := {|
  redis_SetEx s key data ttl :=
    match next_fault s with
    | (Some e, s') => (s', Some e)
    | (None, s') => (mkMemRedis (<[key := (data, ttl)]> (kv s')) (faults s'), None)
    end;
  redis_Get s key :=
    match next_fault s with
    | (Some e, s') => (s', Err e)
    | (None, s') =>
        match kv s' !! key with
        | Some (data, _) => (s', Ok data)
        | None => (s', Err redis_Nil)
        end
    end;
  redis_Del s keys :=
    match next_fault s with
    | (Some e, s') => (s', Err e)
    | (None, s') =>
        let '(m, n) := mem_del (kv s') keys in
        (mkMemRedis m (faults s'), Ok n)
    end
|}.

(** The double quote. *)
Definition dq : string := String "034"%char EmptyString.

(** A codec for strings in the spirit of JSON string literals: a value is
    written between double quotes, and a payload decodes only if it has that
    shape. *)
Definition quote_Marshal (v : string) : result string := Ok (dq +:+ v +:+ dq).

Definition quote_Unmarshal (data : string) : result string :=
  let n := String.length data in
  if (2 <=? n)%nat && String.eqb (substring 0 1 data) dq
     && String.eqb (substring (n - 1) 1 data) dq
  then Ok (substring 1 (n - 2) data)
  else Err (errors_New "invalid character looking for beginning of value").

#[export] Instance string_Codec : Codec string := {|
  json_Marshal := quote_Marshal;
  json_Unmarshal := quote_Unmarshal
|}.

#[export] Instance CallResponse_Codec : Codec CallResponse := {|
  json_Marshal r := quote_Marshal (Msg r);
  json_Unmarshal data :=
    match quote_Unmarshal data with
    | Ok m => Ok (mkCallResponse m)
    | Err e => Err e
    end
|}.

(** A fresh in-memory backend, and the cache and handler built on it as the
    application builds them. *)
Definition mem_empty : World MemRedis := mkWorld (mkMemRedis ∅ []) [].
Definition mem_with (m : gmap string (string * Z)) (fs : list (option error)) : World MemRedis :=
  mkWorld (mkMemRedis m fs) [].

(* ===================================================================== *)
(** ** Notions used to state the properties of the rate limiter *)
(* ===================================================================== *)

(** A sequence of admission checks, oldest first: each element is the
    identifier and the clock reading of one [checkRateLimit] call.  The result
    is the limiter afterwards and the decisions in order. *)
Fixpoint serve (rl : RateLimiter) (cs : list (string * Z)) : RateLimiter * list bool :=
  match cs with
  | [] => (rl, [])
  | (identifier, now) :: cs' =>
      let '(rl1, ok) := checkRateLimit rl identifier now in
      let '(rl2, oks) := serve rl1 cs' in
      (rl2, ok :: oks)
  end.

(** How many of the calls [cs] were made for [identifier] and admitted. *)
Fixpoint admitted (identifier : string) (cs : list (string * Z)) (oks : list bool) : nat :=
  match cs, oks with
  | (i, _) :: cs', ok :: oks' =>
      ((if String.eqb i identifier && ok then 1 else 0) + admitted identifier cs' oks')%nat
  | _, _ => 0%nat
  end.

(** The timestamps stored for an identifier (none when it was never seen). *)
Definition stored (rl : RateLimiter) (identifier : string) : list Z :=
  default [] (requests rl !! identifier).

(** The earliest timestamp of a sequence. *)
Definition earliest (ts : list Z) : option Z :=
  match ts with
  | [] => None
  | t :: ts' => Some (fold_right Z.min t ts')
  end.

(** The admission algorithm in the words of the specification: prune, then
    reject without recording, or append and admit. *)
Definition Allow_spec (rl : RateLimiter) (identifier : string) (now : Z)
  : RateLimiter * bool :=
  let windowStart := now - window rl in
  let kept := List.filter (fun t => windowStart <? t) (stored rl identifier) in
  if limit rl <=? len kept then (rl, false)
  else ({| requests := <[identifier := kept ++ [now]]> (requests rl);
           limit := limit rl; window := window rl |}, true).

(** A clock that never goes back: [t0] is the last reading before [ts]. *)
Fixpoint monotone_from (t0 : Z) (ts : list Z) : Prop :=
  match ts with
  | [] => True
  | t :: ts' => t0 <= t /\ monotone_from t ts'
  end.

(** A clock that never goes back over a whole sequence of readings. *)
Definition nondecreasing (ts : list Z) : Prop :=
  match ts with
  | [] => True
  | t :: ts' => monotone_from t ts'
  end.

(** No identifier holds more timestamps than the limit. *)
Definition bounded (rl : RateLimiter) : Prop :=
  forall i ts, requests rl !! i = Some ts -> len ts <= limit rl.

(** Every stored timestamp is a clock reading not later than [now]. *)
Definition upto (rl : RateLimiter) (now : Z) : Prop :=
  forall i ts t, requests rl !! i = Some ts -> In t ts -> t <= now.

(** The stored timestamps of [identifier] that lie in the window ending at [t]. *)
Definition recent (rl : RateLimiter) (identifier : string) (t : Z) : list Z :=
  List.filter (fun x => t - window rl <? x) (stored rl identifier).

(** One hundred calls for the same identifier, one nanosecond apart. *)
Definition burst : list (string * Z) :=
  map (fun k => ("alice", Z.of_nat k)) (seq 0 100).

(* ===================================================================== *)
(** ** Notions used to state the properties of the cache *)
(* ===================================================================== *)

Section BatchNotions.
Context {V : Type} `{Codec V}.

(** A reply that carries a payload which decodes. *)
Definition decodes (cmd : result string) : bool :=
  match cmd with
  | Ok data => match json_Unmarshal (V := V) data with Ok _ => true | Err _ => false end
  | Err _ => false
  end.

(** A reply that says the key is absent. *)
Definition is_Nil_reply (cmd : result string) : bool :=
  match cmd with
  | Ok _ => false
  | Err e => is_redis_Nil e
  end.

(** The key and the decoded value of a reply that decodes. *)
Definition decode_reply (kc : string * result string) : option (string * V) :=
  match kc.2 with
  | Ok data => match json_Unmarshal data with Ok v => Some (kc.1, v) | Err _ => None end
  | Err _ => None
  end.

(** The keys of a batch whose replies decode, each with its value, in the
    order of the batch. *)
Definition decoded (keys : list string) (cmds : list (result string)) : list (string * V) :=
  omap decode_reply (zip keys cmds).

(** Writing decoded entries into a destination map, in order. *)
Definition write_all (dest : gmap string V) (kvs : list (string * V)) : gmap string V :=
  fold_left (fun d kv => <[kv.1 := kv.2]> d) kvs dest.

End BatchNotions.

(** The states the examples start from: a cache holding a payload that is
    not a quoted string, a cache holding two keys, a cache whose backend
    refuses the next command, and a handler on an empty cache. *)
Definition cache_garbled : cache.Cache MemRedis :=
  NewCache (mem_with {[ "blueprint:k" := ("oops", Hour) ]} []).

Definition cache_two_keys : cache.Cache MemRedis :=
  NewCache (mem_with {[ "blueprint:a" := (dq +:+ "1" +:+ dq, Hour);
                        "blueprint:b" := (dq +:+ "2" +:+ dq, Hour) ]} []).

Definition cache_one_key : cache.Cache MemRedis :=
  NewCache (mem_with {[ "blueprint:k" := (dq +:+ "v" +:+ dq, Hour) ]} []).

Definition cache_empty : cache.Cache MemRedis := NewCache mem_empty.

Definition cache_flaky : cache.Cache MemRedis :=
  NewCache (mem_with ∅ [Some (errors_New "connection reset")]).

Definition handler_empty : Blueprint MemRedis := NewBlueprint cache_empty.

(* ===================================================================== *)
(** ** Notions used to state the further properties *)
(* ===================================================================== *)

(** The decisions among [oks] that answer the calls of [cs] made for
    [identifier], in order. *)
Fixpoint answers (identifier : string) (cs : list (string * Z)) (oks : list bool) : list bool :=
  match cs, oks with
  | (i, _) :: cs', ok :: oks' =>
      if String.eqb i identifier then ok :: answers identifier cs' oks'
      else answers identifier cs' oks'
  | _, _ => []
  end.

(** The calls of [cs] made for [identifier]. *)
Definition calls_of (identifier : string) (cs : list (string * Z)) : list (string * Z) :=
  List.filter (fun c => String.eqb c.1 identifier) cs.

(** The burst, then a call for another identifier and one more call for the
    same one. *)
Definition burst_then : list (string * Z) := burst ++ [("bob", 3); ("alice", 100)].

(** The pause [Set] makes after its failed attempt number [i] (counted from
    0): [retryDelay * time.Duration(i+1)]. *)
Definition retry_pause (i : Z) : Z := wrap_i64 (retryDelay * wrap_i64 (i + 1)).

(** The effects of consecutive failed writes, the first being attempt number
    [i]: each failed write is followed by its pause. *)
Fixpoint retry_trace (write : option error -> Effect) (errs : list error) (i : Z)
  : list Effect :=
  match errs with
  | [] => []
  | e :: errs' => write (Some e) :: EvSleep (retry_pause i) :: retry_trace write errs' (i + 1)
  end.

(** A codec whose decoder undoes its encoder. *)
Definition lawful (V : Type) `{Codec V} : Prop :=
  forall (v : V) (data : string), json_Marshal v = Ok data -> json_Unmarshal data = Ok v.

Section CallNotions.
Context {B : Type} `{Backend B} `{Codec CallResponse}.

(** A sequence of calls served one after the other by the same handler: the
    handler afterwards and what each call returned. *)
Fixpoint Calls (b : Blueprint B) (reqs : list (Env * option CallRequest))
  : Blueprint B * list (option CallResponse * option Status) :=
  match reqs with
  | [] => (b, [])
  | (env, req) :: reqs' =>
      let '(b1, ret) := Call b env req in
      let '(b2, rets) := Calls b1 reqs' in
      (b2, ret :: rets)
  end.

End CallNotions.

(** The response that the business path of [Call] builds for a name. *)
Definition greeting (name : string) : CallResponse :=
  mkCallResponse ("Hello " +:+ name +:+ " from Forex Platform").

(** The environment variables that [NewConfig] reads. *)
Definition required_vars : list string :=
  [config.GPRC_HOST; config.GRPC_PORT; config.REDIS_URL; config.REDIS_PASSWORD;
   config.MYSQL_HOST; config.MYSQL_PORT; config.MYSQL_USER; config.MYSQL_PASSWORD].

(** An environment in which every variable is set (the password of Redis is
    the word "null", as in the export script of the repository). *)
Definition env_example : gmap string string :=
  list_to_map [("GPRC_HOST", "127.0.01"); ("GRPC_PORT", "3000");
               ("REDIS_URL", "0.0.0.0:6379"); ("REDIS_PASSWORD", "null");
               ("MYSQL_HOST", "127.0.0.1"); ("MYSQL_PORT", "3306");
               ("MYSQL_USER", "dbuser"); ("MYSQL_PASSWORD", "secret")].

(** A codec for optional strings, for the examples: [Some s] is written as
    the quoted string, and [None] stands for a value that [json.Marshal]
    refuses (a channel, a function). *)
#[export] Instance option_Codec : Codec (option string) := {|
  json_Marshal v :=
    match v with
    | Some s => quote_Marshal s
    | None => Err (errors_New "json: unsupported type: chan int")
    end;
  json_Unmarshal data :=
    match quote_Unmarshal data with
    | Ok s => Ok (Some s)
    | Err e => Err e
    end
|}.

(** A cache whose backend refuses every command, a cache built with a
    negative number of retries, and the environments of one hundred calls
    one nanosecond apart. *)
Definition cache_down : cache.Cache MemRedis :=
  NewCache (mem_with ∅ [Some (errors_New "connection reset");
                        Some (errors_New "connection reset");
                        Some (errors_New "connection reset")]).

Definition cache_no_retry : cache.Cache MemRedis :=
  NewCacheWithOptions mem_empty (mkOptions "" 0 (-1)).

Definition envs_burst : list Env :=
  map (fun k => mkEnv (Z.of_nat k) 5 None) (seq 0 100).

(** A handler whose limiter has just admitted the burst, and a handler whose
    cache already holds a response for "Alice". *)
Definition handler_saturated : Blueprint MemRedis :=
  mkBlueprint cache_empty (mkMetrics 0 0 0 0 0 0) (serve NewRateLimiter burst).1.

Definition handler_cached : Blueprint MemRedis :=
  NewBlueprint (NewCache (mem_with {[ "blueprint:call:Alice" := (dq +:+ "hi" +:+ dq, Hour) ]} [])).

(* ===================================================================== *)
(** ** Rate limiter: lemmas *)
(* ===================================================================== *)

Section RateLimiterFacts.

Lemma validRequests_loop_acc ws reqs acc :
  fold_left (fun valid t => if Time_After t ws then valid ++ [t] else valid) reqs acc
  = acc ++ List.filter (fun t => ws <? t) reqs.
Proof.
  revert acc. induction reqs as [|t reqs IH]; intros acc; simpl.
  - by rewrite app_nil_r.
  - rewrite IH. unfold Time_After. destruct (ws <? t); simpl; [|done].
    by rewrite <- app_assoc.
Qed.

Lemma validRequests_loop_filter ws reqs :
  validRequests_loop ws reqs = List.filter (fun t => ws <? t) reqs.
Proof. unfold validRequests_loop. by rewrite validRequests_loop_acc. Qed.

Lemma checkRateLimit_limit rl i now : limit (checkRateLimit rl i now).1 = limit rl.
Proof.
  unfold checkRateLimit. destruct (requests rl !! i); [|done].
  by destruct (_ >=? _).
Qed.

Lemma checkRateLimit_window rl i now : window (checkRateLimit rl i now).1 = window rl.
Proof.
  unfold checkRateLimit. destruct (requests rl !! i); [|done].
  by destruct (_ >=? _).
Qed.

Lemma checkRateLimit_Allow_spec rl i now :
  1 <= limit rl -> checkRateLimit rl i now = Allow_spec rl i now.
Proof.
  intros Hl. unfold checkRateLimit, Allow_spec, stored, Time_Add.
  destruct (requests rl !! i) as [reqs|]; simpl.
  - rewrite validRequests_loop_filter.
    replace (now + - window rl) with (now - window rl) by lia.
    rewrite Z.geb_leb. done.
  - destruct (limit rl <=? len []) eqn:E; [|done].
    apply Z.leb_le in E. unfold len in E. simpl in E. lia.
Qed.

Lemma filter_filter_weaken {A} (P Q : A -> bool) (l : list A) :
  (forall x, P x = true -> Q x = true) ->
  List.filter P (List.filter Q l) = List.filter P l.
Proof.
  intros HPQ. induction l as [|x l IH]; simpl; [done|].
  destruct (Q x) eqn:EQ; simpl.
  - by rewrite IH.
  - destruct (P x) eqn:EP; [|done]. apply HPQ in EP. congruence.
Qed.

Lemma filter_drops_one {A} (P : A -> bool) (l : list A) (x : A) :
  In x l -> P x = false -> (length (List.filter P l) < length l)%nat.
Proof.
  induction l as [|y l IH]; simpl; [done|].
  intros [->|Hin] HP.
  - rewrite HP. pose proof (List.filter_length_le P l). lia.
  - specialize (IH Hin HP). destruct (P y); simpl; lia.
Qed.

Lemma earliest_In ts t0 : earliest ts = Some t0 -> In t0 ts.
Proof.
  destruct ts as [|t ts]; simpl; [done|]. intros [= <-].
  induction ts as [|u ts IH]; simpl; [by left|].
  destruct (Z.min_spec u (fold_right Z.min t ts)) as [[_ ->]|[_ ->]].
  - right. by left.
  - destruct IH as [IH|IH]; [by left|right; by right].
Qed.

Lemma earliest_le ts t0 t : earliest ts = Some t0 -> In t ts -> t0 <= t.
Proof.
  destruct ts as [|u ts]; simpl; [done|]. intros [= <-].
  revert t. induction ts as [|v ts IH]; simpl; intros t.
  - intros [->|[]]. lia.
  - intros [->|[->|Hin]].
    + specialize (IH t (or_introl eq_refl)). lia.
    + lia.
    + specialize (IH t (or_intror Hin)). lia.
Qed.

Lemma serve_cons rl i now cs :
  serve rl ((i, now) :: cs)
  = ((serve (checkRateLimit rl i now).1 cs).1,
     (checkRateLimit rl i now).2 :: (serve (checkRateLimit rl i now).1 cs).2).
Proof.
  simpl. destruct (checkRateLimit rl i now) as [rl1 ok]; simpl.
  by destruct (serve rl1 cs).
Qed.

Lemma serve_limit rl cs : limit (serve rl cs).1 = limit rl.
Proof.
  revert rl. induction cs as [|[i now] cs IH]; intros rl; [done|].
  rewrite serve_cons. simpl. by rewrite IH, checkRateLimit_limit.
Qed.

Lemma serve_window rl cs : window (serve rl cs).1 = window rl.
Proof.
  revert rl. induction cs as [|[i now] cs IH]; intros rl; [done|].
  rewrite serve_cons. simpl. by rewrite IH, checkRateLimit_window.
Qed.

Lemma stored_insert rl i j ts l w :
  stored {| requests := <[i := ts]> (requests rl); limit := l; window := w |} j
  = if decide (i = j) then ts else stored rl j.
Proof. unfold stored. simpl. rewrite lookup_insert. by case_decide. Qed.

Lemma checkRateLimit_bounded rl i now :
  1 <= limit rl -> bounded rl -> bounded (checkRateLimit rl i now).1.
Proof.
  intros Hl Hb. rewrite checkRateLimit_Allow_spec by done. unfold Allow_spec.
  destruct (limit rl <=? _) eqn:E; simpl; [done|].
  apply Z.leb_gt in E. intros j ts. simpl. rewrite lookup_insert.
  case_decide; [|by apply Hb]. intros [= <-].
  unfold len in *. rewrite length_app. simpl. lia.
Qed.

Lemma serve_bounded rl cs : 1 <= limit rl -> bounded rl -> bounded (serve rl cs).1.
Proof.
  revert rl. induction cs as [|[i now] cs IH]; intros rl Hl Hb; [done|].
  rewrite serve_cons. simpl. apply IH.
  - by rewrite checkRateLimit_limit.
  - by apply checkRateLimit_bounded.
Qed.

Lemma NewRateLimiter_bounded : bounded NewRateLimiter.
Proof. intros i ts. unfold NewRateLimiter. simpl. by rewrite lookup_empty. Qed.

Lemma checkRateLimit_stored_other rl i j now :
  i <> j -> stored (checkRateLimit rl i now).1 j = stored rl j.
Proof.
  intros Hne. unfold checkRateLimit.
  destruct (requests rl !! i); [destruct (_ >=? _); [done|]|];
    cbn [fst]; rewrite stored_insert; by case_decide.
Qed.

Lemma checkRateLimit_recent rl i now t :
  1 <= limit rl -> t - window rl < now -> now <= t ->
  len (recent (checkRateLimit rl i now).1 i t)
  = len (recent rl i t) + (if (checkRateLimit rl i now).2 then 1 else 0).
Proof.
  intros Hl Hlo Hhi. unfold recent. rewrite checkRateLimit_window.
  rewrite checkRateLimit_Allow_spec by done. unfold Allow_spec.
  destruct (limit rl <=? _); simpl; [lia|].
  rewrite stored_insert. case_decide; [|done].
  rewrite List.filter_app. simpl.
  replace (t - window rl <? now) with true by (symmetry; apply Z.ltb_lt; lia).
  rewrite filter_filter_weaken.
  - unfold len. rewrite length_app. simpl. lia.
  - intros x Hx. apply Z.ltb_lt in Hx. apply Z.ltb_lt. lia.
Qed.

Lemma serve_recent rl cs i t :
  1 <= limit rl ->
  Forall (fun c => c.1 = i -> t - window rl < c.2 <= t) cs ->
  len (recent (serve rl cs).1 i t)
  = len (recent rl i t) + Z.of_nat (admitted i cs (serve rl cs).2).
Proof.
  revert rl. induction cs as [|[j now] cs IH]; intros rl Hl Hcs.
  - simpl. lia.
  - rewrite serve_cons. simpl. inversion Hcs as [|? ? Hc Hcs']; subst. simpl in Hc.
    rewrite IH; [|by rewrite checkRateLimit_limit|by rewrite checkRateLimit_window].
    destruct (String.eqb_spec j i) as [->|Hne].
    + specialize (Hc eq_refl). rewrite checkRateLimit_recent by lia.
      destruct (checkRateLimit rl i now).2; simpl; lia.
    + simpl. unfold recent at 1. rewrite checkRateLimit_window.
      rewrite checkRateLimit_stored_other by done. fold (recent rl i t). lia.
Qed.

Lemma checkRateLimit_rejects_full rl i now :
  1 <= limit rl -> limit rl <= len (recent rl i now) ->
  (checkRateLimit rl i now).2 = false.
Proof.
  intros Hl Hfull. rewrite checkRateLimit_Allow_spec by done.
  unfold Allow_spec. fold (recent rl i now).
  by replace (limit rl <=? _) with true by (symmetry; by apply Z.leb_le).
Qed.

Lemma checkRateLimit_admits_after_expiry rl i now ts t0 :
  1 <= limit rl -> bounded rl ->
  requests rl !! i = Some ts -> In t0 ts -> t0 <= now - window rl ->
  (checkRateLimit rl i now).2 = true.
Proof.
  intros Hl Hb Hts Hin Hold. rewrite checkRateLimit_Allow_spec by done.
  unfold Allow_spec, stored. rewrite Hts. simpl.
  pose proof (filter_drops_one (fun t => now - window rl <? t) ts t0 Hin) as Hlt.
  specialize (Hb i ts Hts). unfold len in *.
  destruct (limit rl <=? _) eqn:E; [|done].
  apply Z.leb_le in E.
  assert ((now - window rl <? t0) = false) as Hf by (apply Z.ltb_ge; lia).
  specialize (Hlt Hf). lia.
Qed.

Lemma checkRateLimit_upto rl i now t0 :
  upto rl t0 -> t0 <= now -> upto (checkRateLimit rl i now).1 now.
Proof.
  intros Hu Hle. assert (upto rl now) as Hu'.
  { intros j ts t Hts Hin. specialize (Hu j ts t Hts Hin). lia. }
  unfold checkRateLimit.
  destruct (requests rl !! i) as [reqs|] eqn:Hreqs.
  - destruct (_ >=? _); [done|]. simpl.
    intros j ts t. simpl. rewrite lookup_insert. case_decide; [|by apply Hu'].
    intros [= <-]. rewrite validRequests_loop_filter, in_app_iff, filter_In.
    intros [[Hin _]|[<-|[]]]; [|lia]. by apply (Hu' i reqs).
  - intros j ts t. simpl. rewrite lookup_insert. case_decide; [|by apply Hu'].
    intros [= <-] [<-|[]]. lia.
Qed.

Lemma last_cons_default {A} (a d : A) (l : list A) :
  List.last (a :: l) d = List.last l a.
Proof.
  revert a d. induction l as [|b l IH]; intros a d; [done|].
  change (List.last (a :: b :: l) d) with (List.last (b :: l) d).
  by rewrite !IH.
Qed.

Lemma serve_upto rl cs t0 :
  upto rl t0 -> monotone_from t0 (map snd cs) ->
  upto (serve rl cs).1 (List.last (map snd cs) t0).
Proof.
  revert rl t0. induction cs as [|[i now] cs IH]; intros rl t0 Hu Hm; [done|].
  rewrite serve_cons. cbn [fst map snd]. destruct Hm as [Hle Hm].
  rewrite last_cons_default.
  exact (IH _ now (checkRateLimit_upto rl i now t0 Hu Hle) Hm).
Qed.

Lemma monotone_from_app t0 ts now :
  monotone_from t0 (ts ++ [now]) ->
  monotone_from t0 ts /\ List.last ts t0 <= now.
Proof.
  revert t0. induction ts as [|t ts IH]; intros t0.
  - simpl. intros [H _]. done.
  - change ((t :: ts) ++ [now]) with (t :: (ts ++ [now])).
    cbn [monotone_from]. intros [Hle Hm]. destruct (IH _ Hm) as [Hm' Hl].
    rewrite last_cons_default. done.
Qed.

Lemma NewRateLimiter_upto t0 : upto NewRateLimiter t0.
Proof. intros i ts t. unfold NewRateLimiter. simpl. by rewrite lookup_empty. Qed.

Lemma serve_upto_now hist now :
  nondecreasing (map snd hist ++ [now]) -> upto (serve NewRateLimiter hist).1 now.
Proof.
  destruct hist as [|[i t] hist]; [intros _; apply NewRateLimiter_upto|].
  cbn [map snd app nondecreasing]. intros Hm.
  apply monotone_from_app in Hm as [Hm Hlast].
  assert (monotone_from t (map snd ((i, t) :: hist))) as Hm' by (simpl; split; [lia|done]).
  pose proof (serve_upto NewRateLimiter _ t (NewRateLimiter_upto t) Hm') as Hu.
  cbn [map snd] in Hu. rewrite last_cons_default in Hu.
  intros j ts x Hts Hin. specialize (Hu j ts x Hts Hin). lia.
Qed.

Lemma stored_upto rl i t now : upto rl now -> In t (stored rl i) -> t <= now.
Proof.
  unfold stored. intros Hu. destruct (requests rl !! i) as [ts|] eqn:E; [|done].
  simpl. by apply (Hu i ts).
Qed.

End RateLimiterFacts.

(* ===================================================================== *)
(** ** Rate limiter: the claims *)
(* ===================================================================== *)

(** C1.  With the policy of [NewBlueprint] (limit 100, window 60 s), in every
    state the limiter can reach and for every identifier, [checkRateLimit]
    is the algorithm of the specification: with [windowStart = now - window]
    it keeps the stored timestamps strictly after [windowStart], rejects and
    leaves the state alone when at least [limit] remain, and otherwise stores
    the kept timestamps followed by [now] and admits.  Consequently, after
    100 admitted calls for an identifier whose readings all lie in the window
    ending at [now], a further call at [now] is rejected; and as soon as the
    window has passed the earliest recorded timestamp the call is admitted. *)
Theorem C1_checkRateLimit_sliding_window
  (hist : list (string * Z)) (identifier : string) (now : Z) :
  let rl := (serve NewRateLimiter hist).1 in
  limit rl = 100 /\ window rl = 60 * Second /\
  checkRateLimit rl identifier now = Allow_spec rl identifier now /\
  (forall cs,
      Forall (fun c => c.1 = identifier -> now - window rl < c.2 <= now) cs ->
      (100 <= admitted identifier cs (serve rl cs).2)%nat ->
      (checkRateLimit (serve rl cs).1 identifier now).2 = false) /\
  (forall t0,
      earliest (stored rl identifier) = Some t0 -> t0 <= now - window rl ->
      (checkRateLimit rl identifier now).2 = true).
Proof.
  intros rl.
  assert (limit rl = 100) as Hl by (unfold rl; by rewrite serve_limit).
  assert (window rl = 60 * Second) as Hw by (unfold rl; by rewrite serve_window).
  assert (bounded rl) as Hb.
  { unfold rl. apply serve_bounded; [done|apply NewRateLimiter_bounded]. }
  split; [done|]. split; [done|]. split; [|split].
  - apply checkRateLimit_Allow_spec. lia.
  - intros cs Hcs Hadm. apply checkRateLimit_rejects_full.
    + rewrite serve_limit. lia.
    + rewrite serve_limit, Hl.
      rewrite (serve_recent rl cs identifier now) by (lia || done).
      unfold len. lia.
  - intros t0 He Hold. pose proof (earliest_In _ _ He) as Hin.
    unfold stored in Hin. destruct (requests rl !! identifier) as [ts|] eqn:Hts; [|done].
    apply (checkRateLimit_admits_after_expiry rl identifier now ts t0); (lia || done).
Qed.

Lemma C1_checkRateLimit_sliding_window_witness :
  (checkRateLimit (serve NewRateLimiter burst).1 "alice" 100).2 = false /\
  (checkRateLimit (serve NewRateLimiter burst).1 "alice" Minute).2 = true.
Proof.
  split.
  - destruct (C1_checkRateLimit_sliding_window [] "alice" 100) as (_ & _ & _ & H & _).
    apply (H burst).
    + apply (bool_decide_unpack _). vm_compute. exact I.
    + apply Nat.leb_le. vm_compute. reflexivity.
  - destruct (C1_checkRateLimit_sliding_window burst "alice" Minute) as (_ & _ & _ & _ & H).
    apply (H 0).
    + vm_compute. reflexivity.
    + vm_compute. discriminate.
Defined.

(** C8. When the clock never goes back, in every state the limiter can
    reach: the pruned sequence [validRequests] that a check computes holds
    only timestamps in [[now - window, now]], and right after an admission
    the sequence stored for the identifier has at most [limit] timestamps,
    all of them in that interval. *)
Theorem C8_rate_limiter_window_invariant
  (hist : list (string * Z)) (identifier : string) (now : Z) :
  nondecreasing (map snd hist ++ [now]) ->
  let rl := (serve NewRateLimiter hist).1 in
  let pruned := validRequests_loop (Time_Add now (- window rl)) (stored rl identifier) in
  (forall t, In t pruned -> now - window rl <= t <= now) /\
  (forall rl', checkRateLimit rl identifier now = (rl', true) ->
      len (stored rl' identifier) <= limit rl' /\
      forall t, In t (stored rl' identifier) -> now - window rl' <= t <= now).
Proof.
  intros Hm rl pruned. pose proof (serve_upto_now hist now Hm) as Hu. fold rl in Hu.
  assert (limit rl = 100) as Hl by (unfold rl; by rewrite serve_limit).
  assert (window rl = Minute) as Hw by (unfold rl; by rewrite serve_window).
  assert (forall t, In t pruned -> now - window rl < t <= now) as Hpruned.
  { intros t. unfold pruned, Time_Add. rewrite validRequests_loop_filter, filter_In.
    intros [Hin Ht]. apply Z.ltb_lt in Ht. split; [lia|]. by apply (stored_upto rl identifier). }
  split.
  - intros t Ht. specialize (Hpruned t Ht). lia.
  - intros rl'. rewrite checkRateLimit_Allow_spec by lia. unfold Allow_spec.
    destruct (limit rl <=? _) eqn:E; [done|]. intros [= <-].
    apply Z.leb_gt in E. rewrite stored_insert. case_decide; [|done]. cbn [limit window].
    split.
    + unfold len in *. rewrite length_app. simpl. lia.
    + intros t. rewrite in_app_iff. intros [Hin|[<-|[]]].
      * assert (In t pruned) as Hp.
        { unfold pruned, Time_Add. rewrite validRequests_loop_filter.
          by replace (now + - window rl) with (now - window rl) by lia. }
        specialize (Hpruned t Hp). lia.
      * rewrite Hw. unfold Minute, Second, Millisecond. lia.
Qed.

Lemma C8_rate_limiter_window_invariant_witness :
  let hist := [("alice", 5); ("bob", 7); ("alice", 9)] in
  let rl' := (checkRateLimit (serve NewRateLimiter hist).1 "alice" 12).1 in
  len (stored rl' "alice") <= limit rl'.
Proof.
  intros hist rl'.
  refine (proj1 (proj2 (C8_rate_limiter_window_invariant hist "alice" 12 _) rl' _)).
  - simpl. lia.
  - vm_compute. reflexivity.
Defined.

(* ===================================================================== *)
(** ** Cache: lemmas *)
(* ===================================================================== *)

Section CacheFacts.
Context {B : Type} `{Backend B} {V : Type} `{Codec V}.

Lemma wrap_u64_add_r a b : wrap_u64 (a + wrap_u64 b) = wrap_u64 (a + b).
Proof. unfold wrap_u64. by rewrite Z.add_mod_idemp_r. Qed.

Lemma len_nonempty {A} (l : list A) : l <> [] -> (len l =? 0) = false.
Proof. destruct l; [done|]. intros _. apply Z.eqb_neq. unfold len. simpl. lia. Qed.

(** The three ways [Get] can fail give three different messages. *)
Lemma decoding_message_distinct (fullKey : string) :
  "failed to unmarshal cached value" <> "key " +:+ fullKey +:+ " not found" /\
  "failed to unmarshal cached value" <> "failed to get cache key " +:+ fullKey.
Proof. split; simpl; discriminate. Qed.

Lemma wrap_u64_add_l a b : wrap_u64 (wrap_u64 a + b) = wrap_u64 (a + b).
Proof. unfold wrap_u64. by rewrite Z.add_mod_idemp_l. Qed.

Lemma SetEx_effects (w w' : World B) key data ttl r :
  SetEx w key data ttl = (w', r) -> effects w' = effects w ++ [EvSetEx key data ttl r].
Proof.
  unfold SetEx. destruct (redis_SetEx (server w) key data ttl) as [s reply].
  by intros [= <- <-].
Qed.

Lemma Set_loop_ok n i (c : cache.Cache B) fullKey data lastErr w :
  SetEx (redis c) fullKey data (expiration c) = (w, None) ->
  Set_loop (S n) i c fullKey data lastErr = (incrementStats (with_redis c w) "sets", None).
Proof. intros E. cbn [Set_loop]. by rewrite E. Qed.

Lemma Set_loop_retry n i (c : cache.Cache B) fullKey data lastErr w e :
  SetEx (redis c) fullKey data (expiration c) = (w, Some e) ->
  Set_loop (S n) i c fullKey data lastErr
  = Set_loop n (i + 1)
      (if i <? maxRetries c - 1
       then with_redis c (Sleep w (wrap_i64 (retryDelay * wrap_i64 (i + 1))))
       else with_redis c w)
      fullKey data (Some e).
Proof. intros E. cbn [Set_loop]. by rewrite E. Qed.

Lemma pipeline_Gets_length (s : B) keys :
  length (pipeline_Gets s keys).2 = length keys.
Proof.
  revert s. induction keys as [|key keys IH]; intros s; [done|].
  simpl. destruct (redis_Get s key) as [s1 reply].
  specialize (IH s1). destruct (pipeline_Gets s1 keys) as [s2 replies].
  simpl in *. by rewrite IH.
Qed.

Lemma wrap_u64_idemp z : wrap_u64 (wrap_u64 z) = wrap_u64 z.
Proof. unfold wrap_u64. by rewrite Z.mod_mod. Qed.

Lemma GetBatch_loop_spec keys cmds (dest : gmap string V) hits misses :
  length cmds = length keys ->
  wrap_u64 hits = hits -> wrap_u64 misses = misses ->
  GetBatch_loop keys cmds dest hits misses
  = (write_all dest (decoded keys cmds),
     wrap_u64 (hits + Z.of_nat (length (List.filter (decodes (V := V)) cmds))),
     wrap_u64 (misses + Z.of_nat (length (List.filter is_Nil_reply cmds)))).
Proof.
  revert cmds dest hits misses.
  induction keys as [|key keys IH]; intros [|cmd cmds] dest hits misses Hlen Hh Hm;
    try done.
  - simpl. by rewrite !Z.add_0_r, Hh, Hm.
  - injection Hlen as Hlen. unfold decoded.
    cbn [zip zip_with omap list_omap List.filter].
    change (omap decode_reply (zip keys cmds)) with (decoded keys cmds).
    destruct cmd as [data|e];
      cbn [GetBatch_loop decode_reply decodes is_Nil_reply fst snd].
    + destruct (json_Unmarshal data) as [v|e'].
      * rewrite IH by (done || apply wrap_u64_idemp).
        rewrite wrap_u64_add_l. cbn [length]. unfold write_all at 2.
        cbn [fold_left fst snd]. fold (write_all (<[key := v]> dest) (decoded keys cmds)).
        do 2 f_equal. f_equal. lia.
      * by rewrite IH.
    + destruct (is_redis_Nil e).
      * rewrite IH by (done || apply wrap_u64_idemp).
        rewrite wrap_u64_add_l. cbn [length]. f_equal. f_equal. lia.
      * by rewrite IH.
Qed.

Lemma write_all_untouched (dest : gmap string V) kvs k :
  (forall v, ~ In (k, v) kvs) -> write_all dest kvs !! k = dest !! k.
Proof.
  revert dest. induction kvs as [|[k' v'] kvs IH]; intros dest Hk; [done|].
  unfold write_all. cbn [fold_left fst snd]. fold (write_all (<[k' := v']> dest) kvs).
  rewrite IH.
  - apply lookup_insert_ne. intros ->. apply (Hk v'). by left.
  - intros v Hin. apply (Hk v). by right.
Qed.

Lemma decoded_In keys cmds k (v : V) :
  In (k, v) (decoded keys cmds) ->
  exists i data, keys !! i = Some k /\ cmds !! i = Some (Ok data) /\ json_Unmarshal data = Ok v.
Proof.
  revert cmds. induction keys as [|key keys IH]; intros [|cmd cmds]; try done.
  unfold decoded. cbn [zip zip_with omap list_omap].
  destruct (decode_reply (key, cmd)) as [kv|] eqn:E.
  - intros [->|Hin].
    + unfold decode_reply in E. cbn [fst snd] in E.
      destruct cmd as [data|]; [|done]. destruct (json_Unmarshal data) as [v'|] eqn:Eu; [|done].
      injection E as -> ->. by exists 0%nat, data.
    + destruct (IH cmds Hin) as (i & data & ? & ? & ?). by exists (S i), data.
  - intros Hin. destruct (IH cmds Hin) as (i & data & ? & ? & ?). by exists (S i), data.
Qed.

Lemma is_redis_Nil_true e : is_redis_Nil e = true <-> e = redis_Nil.
Proof. by destruct e. Qed.

Lemma incrementStatsBy_hits_misses (c : cache.Cache B) hits misses :
  stats (incrementStatsBy (incrementStatsBy c "hits" hits) "misses" misses)
  = mkCacheStats (wrap_u64 (Hits (stats c) + hits)) (wrap_u64 (Misses (stats c) + misses))
                 (Sets (stats c)) (Deletes (stats c)).
Proof. reflexivity. Qed.


End CacheFacts.

(* ===================================================================== *)
(** ** Cache: the claims *)
(* ===================================================================== *)

Section CacheClaims.
Context {B : Type} `{Backend B} {V : Type} `{Codec V}.

(** C3 (as amended).  When the backend returns a payload for the key and
    the payload does not decode, [Get] returns the decoder's error wrapped as
    "failed to unmarshal cached value", a message no other failure of [Get]
    carries, and it returns before the statistics are touched: neither [Hits]
    nor [Misses] (nor any other counter) changes. *)
Theorem C3_Get_decode_failure_counts_nothing
  (c : cache.Cache B) (key data : string) (w : World B) (e : error) :
  Get (redis c) (createKey c key) = (w, Ok data) ->
  json_Unmarshal (V := V) data = Err e ->
  Cache_Get (V := V) c key
  = (with_redis c w, Err (errors_Wrap e "failed to unmarshal cached value")) /\
  stats (Cache_Get (V := V) c key).1 = stats c /\
  (forall cause msg,
      (Cache_Get (V := V) c key).2 = Err (errors_Wrap cause msg) ->
      msg = "failed to unmarshal cached value") /\
  "failed to unmarshal cached value" <> "key " +:+ createKey c key +:+ " not found" /\
  "failed to unmarshal cached value" <> "failed to get cache key " +:+ createKey c key.
Proof.
  intros Hget Hdec.
  assert (Cache_Get (V := V) c key
          = (with_redis c w, Err (errors_Wrap e "failed to unmarshal cached value"))) as E.
  { unfold Cache_Get. rewrite Hget. cbn zeta iota beta. by rewrite Hdec. }
  rewrite E. split; [done|]. split; [done|]. split.
  - simpl. intros cause msg [= _ <-]. done.
  - apply decoding_message_distinct.
Qed.

(** C4 (as amended).  A [Delete] of n >= 1 keys sends one [DEL] with the n
    prefixed keys and leaves the backend as that command left it (nothing is
    rolled back).  When the command replies with a count, [Deletes] grows by
    exactly one, whatever n is, the other counters keep their values, and the
    call fails, with the error "expected to delete n keys, but deleted d",
    exactly when the count d differs from n.  When the command itself fails,
    its error is returned wrapped and no counter changes. *)
Theorem C4_Delete_counts_one_per_call (c : cache.Cache B) (keys : list string) :
  keys <> [] ->
  let sent := Del (redis c) (map (createKey c) keys) in
  let c' := (Cache_Delete c keys).1 in
  let err := (Cache_Delete c keys).2 in
  redis c' = sent.1 /\
  match sent.2 with
  | Ok deleted =>
      stats c' = mkCacheStats (Hits (stats c)) (Misses (stats c)) (Sets (stats c))
                              (wrap_u64 (Deletes (stats c) + 1)) /\
      (err = None <-> deleted = len keys) /\
      (deleted <> len keys ->
       err = Some (errors_New ("expected to delete " +:+ pretty (len keys)
                                 +:+ " keys, but deleted " +:+ pretty deleted)))
  | Err e =>
      stats c' = stats c /\
      err = Some (errors_Wrap e "failed to delete cache keys")
  end.
Proof.
  intros Hne sent c' err. subst sent c' err. unfold Cache_Delete.
  rewrite (len_nonempty keys Hne).
  destruct (Del (redis c) (map (createKey c) keys)) as [w [deleted|e]]; cbn [fst snd].
  - destruct (Z.eqb_spec deleted (len keys)) as [->|Hd]; cbn [negb fst snd].
    + repeat split; done.
    + repeat split; (done || congruence).
  - done.
Qed.

(** C9.  [Delete] with no key returns nil at once: the cache is returned as
    it was, so no command was sent to the backend, the backend is unchanged
    and every counter keeps its value. *)
Theorem C9_Delete_no_keys_is_noop (c : cache.Cache B) :
  Cache_Delete c [] = (c, None) /\
  effects (redis (Cache_Delete c []).1) = effects (redis c) /\
  server (redis (Cache_Delete c []).1) = server (redis c) /\
  stats (Cache_Delete c []).1 = stats c.
Proof. by repeat split. Qed.


(** C10.  [GetBatch] sends one pipeline of [GET]s and fails only when the
    pipeline reports an error other than [redis.Nil].  Otherwise it returns
    nil whatever the payloads are, and: [Hits] grows by the number of replies
    whose payload decodes, [Misses] by the number of [redis.Nil] replies, the
    other counters keep their values, and the destination map receives
    exactly the decoded entries.  A reply whose payload does not decode is
    thus counted neither as a hit nor as a miss, and a key none of whose
    replies decodes is not written to the destination map. *)
Theorem C10_GetBatch_skips_undecodable
  (c : cache.Cache B) (keys : list string) (dest : gmap string V) :
  let sent := Exec (redis c) (map (createKey c) keys) in
  let cmds := sent.2.1 in
  let err := sent.2.2 in
  let c' := (Cache_GetBatch c keys dest).1.1 in
  let dest' := (Cache_GetBatch c keys dest).1.2 in
  let ret := (Cache_GetBatch c keys dest).2 in
  length cmds = length keys /\
  (ret = None <-> err = None \/ err = Some redis_Nil) /\
  (ret = None ->
   stats c'
   = mkCacheStats
       (wrap_u64 (Hits (stats c) + Z.of_nat (length (List.filter (decodes (V := V)) cmds))))
       (wrap_u64 (Misses (stats c) + Z.of_nat (length (List.filter is_Nil_reply cmds))))
       (Sets (stats c)) (Deletes (stats c)) /\
   dest' = write_all dest (decoded keys cmds) /\
   (forall data e, json_Unmarshal (V := V) data = Err e ->
      decodes (V := V) (Ok data) = false /\ is_Nil_reply (Ok data) = false) /\
   (forall key,
      (forall i data, keys !! i = Some key -> cmds !! i = Some (Ok data) ->
                      exists e, json_Unmarshal (V := V) data = Err e) ->
      dest' !! key = dest !! key)).
Proof.
  intros sent cmds err c' dest' ret.
  assert (length cmds = length keys) as Hlen.
  { subst cmds sent. unfold Exec.
    pose proof (pipeline_Gets_length (server (redis c)) (map (createKey c) keys)) as Hl.
    destruct (pipeline_Gets _ _) as [s replies]. cbn [fst snd] in *.
    by rewrite Hl, length_map. }
  split; [done|].
  subst c' dest' ret. unfold Cache_GetBatch. fold sent.
  destruct sent as [w [cmds0 err0]] eqn:Es. subst cmds err. cbn [fst snd] in *.
  destruct err0 as [e|];
    [destruct (is_redis_Nil e) eqn:En; cbn [negb];
     [apply is_redis_Nil_true in En as ->|]|].
  2: { (* the pipeline failed *)
    cbn [Wrap fst snd]. split; [|done]. split; [done|].
    intros [|[= ->]]; done. }
  (* the pipeline ran: its error is nil or [redis.Nil] *)
  all: rewrite (GetBatch_loop_spec keys cmds0 dest 0 0) by done; cbn [fst snd].
  all: split; [split; [intros _; (by left) || (by right)|done]|]; intros _.
  all: split; [by rewrite incrementStatsBy_hits_misses, !Z.add_0_l, !wrap_u64_add_r|].
  all: split; [done|]; split.
  all: try (intros data e' He; unfold decodes; by rewrite He).
  all: intros key Hkey; apply write_all_untouched; intros v Hin.
  all: destruct (decoded_In _ _ _ _ Hin) as (i & data & Hi & Hc & Hd).
  all: destruct (Hkey i data Hi Hc) as [e' He']; congruence.
Qed.

End CacheClaims.

(* ===================================================================== *)
(** ** Handler: lemmas and claims *)
(* ===================================================================== *)

(** The paths of [Call_body] after validation: rate limited, cache hit,
    business logic failed, and the full path. *)
Ltac Call_paths :=
  destruct (checkRateLimit _ _ _) as [? [|]]; cbn [negb];
  [ destruct (Cache_Get _ _) as [? [?|?]];
    [ | destruct (processBusinessLogic _);
        [ | destruct (Cache_SetWithTTL _ _ _ _) ] ]
  | ].

Section HandlerClaims.
Context {B : Type} `{Backend B} `{Codec CallResponse}.

Lemma validateRequest_None (req : option CallRequest) :
  validateRequest req = None <->
  exists r, req = Some r /\ Name r <> "" /\ (String.length (Name r) <= 100)%nat.
Proof.
  unfold validateRequest. destruct req as [r|].
  - destruct (String.eqb_spec (Name r) "") as [E|E].
    + split; [done|]. intros (r' & [= <-] & Hne & _). done.
    + destruct (Z.gtb_spec (Z.of_nat (String.length (Name r))) 100) as [Hgt|Hle].
      * split; [done|]. intros (r' & [= <-] & _ & Hl). lia.
      * split; [|done]. intros _. exists r. repeat split; [done|lia].
  - split; [done|]. intros (r & [=] & _).
Qed.

(** The code of the status that [Call_body] returns is [InvalidArgument] only
    on the validation path. *)
Lemma Call_body_InvalidArgument (b : Blueprint B) env req msg :
  (Call_body b env req).2.2 = Some (status_Error InvalidArgument msg) ->
  exists err, validateRequest req = Some err.
Proof.
  unfold Call_body. destruct (validateRequest req) as [err|]; [by exists err|].
  by Call_paths.
Qed.

(** The counters that [recordMetrics] maintains are touched by nothing else
    in [Call]. *)
Lemma Call_body_metrics (b : Blueprint B) env req :
  let m := metrics b in
  let m' := metrics (Call_body b env req).1 in
  TotalRequests m' = TotalRequests m /\ SuccessfulCalls m' = SuccessfulCalls m /\
  FailedCalls m' = FailedCalls m /\ AvgResponseTime m' = AvgResponseTime m.
Proof.
  unfold Call_body. destruct (validateRequest req) as [err|]; [done|].
  by Call_paths.
Qed.

(** What the deferred hook does to the counters, whatever [Call] returns. *)
Lemma Call_metrics (b : Blueprint B) env req :
  let m := metrics b in
  let m' := metrics (Call b env req).1 in
  TotalRequests m' = wrap_u64 (TotalRequests m + 1) /\
  SuccessfulCalls m' = wrap_u64 (SuccessfulCalls m + 1) /\
  FailedCalls m' = FailedCalls m /\
  AvgResponseTime m'
  = if AvgResponseTime m =? 0 then elapsed env
    else Z.quot (wrap_i64 (AvgResponseTime m + elapsed env)) 2.
Proof.
  intros m m'. subst m m'. unfold Call.
  pose proof (Call_body_metrics b env req) as (Ht & Hs & Hf & Ha).
  destruct (Call_body b env req) as [b1 ret]. cbn [fst snd] in *.
  unfold recordMetrics. cbn. rewrite Ht, Hs, Hf, Ha. done.
Qed.


End HandlerClaims.

(* ===================================================================== *)
(** ** The claims on the in-memory backend, examples and counterexamples *)
(* ===================================================================== *)

(** [DEL] never reports more keys than it was given, so on this backend a
    count that differs from the number requested is a smaller one. *)
Lemma mem_del_le m keys : 0 <= (mem_del m keys).2 <= len keys.
Proof.
  revert m. induction keys as [|key keys IH]; intros m; [done|].
  unfold len in *. cbn [mem_del length]. destruct (m !! key).
  - specialize (IH (delete key m)). destruct (mem_del (delete key m) keys). simpl in *. lia.
  - specialize (IH m). lia.
Qed.

(** Sanity checks of the model on the in-memory backend. *)

Example Set_then_Get :
  let c1 := (Cache_Set cache_empty "k" "v").1 in
  (Cache_Get (V := string) c1 "k").2 = Ok "v" /\
  stats (Cache_Get (V := string) c1 "k").1 = mkCacheStats 1 0 1 0.
Proof. by vm_compute. Qed.

Example Get_absent_is_a_miss :
  (Cache_Get (V := string) cache_empty "k").2
  = Err (errors_Wrap redis_Nil "key blueprint:k not found") /\
  stats (Cache_Get (V := string) cache_empty "k").1 = mkCacheStats 0 1 0 0.
Proof. by vm_compute. Qed.

Example Set_gives_up_after_three_failures :
  let down := Some (errors_New "connection reset") in
  let c := NewCache (mem_with ∅ [down; down; down]) in
  let write := EvSetEx "blueprint:k" (dq +:+ "v" +:+ dq) Hour down in
  (Cache_Set c "k" "v").2
  = Some (errors_Wrap (errors_New "connection reset")
                      "failed to set cache key blueprint:k after 3 retries") /\
  effects (redis (Cache_Set c "k" "v").1)
  = [write; EvSleep (100 * Millisecond); write; EvSleep (200 * Millisecond); write].
Proof. by vm_compute. Qed.

Example second_Call_is_a_cache_hit :
  let alice := Some (mkCallRequest "Alice") in
  let b1 := (Call handler_empty (mkEnv 0 5 None) alice).1 in
  let out := Call b1 (mkEnv 10 7 None) alice in
  out.2 = (Some (mkCallResponse "Hello Alice from Forex Platform"), None) /\
  metrics out.1 = mkMetrics 2 2 0 1 1 6.
Proof. by vm_compute. Qed.

Example call_101_is_rate_limited :
  (checkRateLimit (serve NewRateLimiter burst).1 "alice" 100).2 = false /\
  (checkRateLimit (serve NewRateLimiter burst).1 "bob" 100).2 = true.
Proof. by vm_compute. Qed.

(** C3, as stated, fails: the payload [oops] is fetched and does not decode,
    and [Hits] is not incremented. *)
Lemma C3_counterexample :
  (Get (redis cache_garbled) (createKey cache_garbled "k")).2 = Ok "oops" /\
  (exists e, json_Unmarshal (V := string) "oops" = Err e) /\
  Hits (stats (Cache_Get (V := string) cache_garbled "k").1)
  <> wrap_u64 (Hits (stats cache_garbled) + 1).
Proof.
  split; [reflexivity|]. split; [eexists; reflexivity|]. vm_compute. discriminate.
Qed.

Lemma C3_Get_decode_failure_counts_nothing_witness :
  stats (Cache_Get (V := string) cache_garbled "k").1 = stats cache_garbled.
Proof.
  refine (proj1 (proj2 (C3_Get_decode_failure_counts_nothing
                          (V := string) cache_garbled "k" "oops" _ _ _ _))).
  - reflexivity.
  - reflexivity.
Defined.

(** C4, as stated, fails: two keys are requested and deleted, and [Deletes]
    grows by one, not by two. *)
Lemma C4_counterexample :
  let c' := (Cache_Delete cache_two_keys ["a"; "b"]).1 in
  len ["a"; "b"] = 2 /\
  (Cache_Delete cache_two_keys ["a"; "b"]).2 = None /\
  Deletes (stats c') = wrap_u64 (Deletes (stats cache_two_keys) + 1) /\
  Deletes (stats c') <> wrap_u64 (Deletes (stats cache_two_keys) + 2).
Proof. vm_compute. repeat split; discriminate. Qed.

Lemma C4_Delete_counts_one_per_call_witness :
  Deletes (stats (Cache_Delete cache_two_keys ["a"; "b"]).1)
  = wrap_u64 (Deletes (stats cache_two_keys) + 1).
Proof.
  assert (["a"; "b"] <> []) as Hne by discriminate.
  pose proof (C4_Delete_counts_one_per_call cache_two_keys ["a"; "b"] Hne) as [_ Hc].
  cbn in Hc. destruct Hc as [Hstats _]. by rewrite Hstats.
Defined.

(** C5 (as amended).  On a backend that answers, deleting a key that is
    absent (for instance one that was just deleted) fails with the error
    "expected to delete 1 keys, but deleted 0": [DEL] reports that it removed
    nothing.  The backend keeps its keys, and [Deletes] grows by one for the
    call, never by more than the number of keys requested. *)
Theorem C5_Delete_absent_key_reports_partial_delete
  (c : cache.Cache MemRedis) (key : string) :
  faults (server (redis c)) = [] ->
  kv (server (redis c)) !! createKey c key = None ->
  let c' := (Cache_Delete c [key]).1 in
  (Cache_Delete c [key]).2 = Some (errors_New "expected to delete 1 keys, but deleted 0") /\
  kv (server (redis c')) = kv (server (redis c)) /\
  stats c' = mkCacheStats (Hits (stats c)) (Misses (stats c)) (Sets (stats c))
                          (wrap_u64 (Deletes (stats c) + 1)) /\
  wrap_u64 (Deletes (stats c) + 1) = wrap_u64 (Deletes (stats c) + len [key]).
Proof.
  intros Hf Hk. unfold Cache_Delete, Del. cbn [len length Z.of_nat Z.eqb map].
  cbn [redis_Del MemRedis_Backend]. unfold next_fault. rewrite Hf.
  cbn [mem_del]. rewrite Hk. done.
Qed.

(** C5, as stated, fails: the second [Delete] of the same key returns an
    error. *)
Lemma C5_counterexample :
  let c1 := (Cache_Delete cache_one_key ["k"]).1 in
  (Cache_Delete cache_one_key ["k"]).2 = None /\
  kv (server (redis c1)) !! createKey c1 "k" = None /\
  (Cache_Delete c1 ["k"]).2 <> None.
Proof. vm_compute. repeat split; discriminate. Qed.

Lemma C5_Delete_absent_key_reports_partial_delete_witness :
  (Cache_Delete cache_empty ["k"]).2
  = Some (errors_New "expected to delete 1 keys, but deleted 0").
Proof.
  refine (proj1 (C5_Delete_absent_key_reports_partial_delete cache_empty "k" _ _)).
  - reflexivity.
  - reflexivity.
Defined.


Lemma C10_GetBatch_skips_undecodable_witness :
  let res := Cache_GetBatch (V := string) cache_garbled ["k"; "z"] ∅ in
  res.2 = None /\ res.1.2 !! "k" = None /\
  stats res.1.1 = mkCacheStats 0 1 0 0.
Proof.
  intros res.
  pose proof (C10_GetBatch_skips_undecodable (V := string) cache_garbled ["k"; "z"] ∅)
    as (_ & Hret & Hok).
  assert (res.2 = None) as Hnone by (apply Hret; right; reflexivity).
  destruct (Hok Hnone) as (Hstats & _ & _ & Hdest).
  split; [done|]. split.
  - unfold res. rewrite Hdest; [done|].
    intros i data Hi Hc. destruct i as [|[|i]]; vm_compute in Hi, Hc; try done.
    injection Hc as <-. eexists. reflexivity.
  - unfold res. rewrite Hstats. reflexivity.
Defined.


(** C2, on the code: the deferred hook passes nil to [recordMetrics], so
    every call is counted as successful and [FailedCalls] never moves.  In
    particular the request with the empty name is refused with
    [InvalidArgument] and yet counted in [SuccessfulCalls]. *)
Theorem C2_Call_failure_counted_as_success :
  (forall (b : Blueprint MemRedis) env req,
      let m := metrics b in
      let m' := metrics (Call b env req).1 in
      TotalRequests m' = wrap_u64 (TotalRequests m + 1) /\
      SuccessfulCalls m' = wrap_u64 (SuccessfulCalls m + 1) /\
      FailedCalls m' = FailedCalls m) /\
  (let out := Call handler_empty (mkEnv 0 5 None) (Some (mkCallRequest "")) in
   out.2 = (None, Some (status_Error InvalidArgument "name is required")) /\
   metrics out.1 = mkMetrics 1 1 0 0 0 5).
Proof.
  split.
  - intros b env req. pose proof (Call_metrics b env req) as (Ht & Hs & Hf & _). done.
  - by vm_compute.
Qed.

(* ===================================================================== *)
(** ** Rate limiter: further properties *)
(* ===================================================================== *)

Section RateLimiterMore.

Lemma recent_le_stored rl i t : len (recent rl i t) <= len (stored rl i).
Proof.
  unfold recent, len. pose proof (List.filter_length_le (fun x => t - window rl <? x) (stored rl i)).
  lia.
Qed.

Lemma stored_bounded rl i : 1 <= limit rl -> bounded rl -> len (stored rl i) <= limit rl.
Proof.
  intros Hl Hb. unfold stored. destruct (requests rl !! i) as [ts|] eqn:E; simpl.
  - by apply (Hb i).
  - unfold len. simpl. lia.
Qed.

(** What [checkRateLimit] decides and stores for an identifier depends only
    on the policy and on what is stored for that identifier. *)
Lemma checkRateLimit_local rl rl' i now :
  1 <= limit rl -> limit rl' = limit rl -> window rl' = window rl ->
  stored rl' i = stored rl i ->
  (checkRateLimit rl' i now).2 = (checkRateLimit rl i now).2 /\
  stored (checkRateLimit rl' i now).1 i = stored (checkRateLimit rl i now).1 i.
Proof.
  intros Hl El Ew Es. rewrite !checkRateLimit_Allow_spec by lia.
  unfold Allow_spec. rewrite El, Ew, Es.
  destruct (limit rl <=? _); cbn [fst snd]; [done|].
  rewrite !stored_insert. by case_decide.
Qed.

Lemma serve_local rl rl' cs i :
  1 <= limit rl -> limit rl' = limit rl -> window rl' = window rl ->
  stored rl' i = stored rl i ->
  stored (serve rl' (calls_of i cs)).1 i = stored (serve rl cs).1 i /\
  (serve rl' (calls_of i cs)).2 = answers i cs (serve rl cs).2.
Proof.
  revert rl rl'. induction cs as [|[j now] cs IH]; intros rl rl' Hl El Ew Es; [done|].
  rewrite (serve_cons rl). cbn [calls_of List.filter fst answers].
  destruct (String.eqb_spec j i) as [->|Hne].
  - fold (calls_of i cs). rewrite serve_cons. cbn [fst snd].
    destruct (checkRateLimit_local rl rl' i now Hl El Ew Es) as [Ed Es'].
    destruct (IH (checkRateLimit rl i now).1 (checkRateLimit rl' i now).1) as [IH1 IH2].
    + by rewrite checkRateLimit_limit.
    + by rewrite !checkRateLimit_limit.
    + by rewrite !checkRateLimit_window.
    + done.
    + by rewrite IH1, IH2, Ed.
  - fold (calls_of i cs). cbn [fst snd]. apply IH.
    + by rewrite checkRateLimit_limit.
    + by rewrite checkRateLimit_limit.
    + by rewrite checkRateLimit_window.
    + by rewrite checkRateLimit_stored_other.
Qed.

Lemma checkRateLimit_dom rl i now :
  dom (requests (checkRateLimit rl i now).1) = {[i]} ∪ dom (requests rl).
Proof.
  unfold checkRateLimit. destruct (requests rl !! i) as [reqs|] eqn:E.
  - assert (i ∈ dom (requests rl)) as Hin by (apply elem_of_dom; eauto).
    destruct (_ >=? _); cbn [fst requests].
    + symmetry. by apply subseteq_union_1_L, singleton_subseteq_l.
    + by rewrite dom_insert_L.
  - cbn [fst requests]. by rewrite dom_insert_L.
Qed.

Lemma checkRateLimit_nonempty rl i now :
  (forall j ts, requests rl !! j = Some ts -> ts <> []) ->
  forall j ts, requests (checkRateLimit rl i now).1 !! j = Some ts -> ts <> [].
Proof.
  intros Hne j ts. unfold checkRateLimit.
  destruct (requests rl !! i) as [reqs|] eqn:E; [destruct (_ >=? _)|];
    cbn [fst requests]; try apply Hne;
    rewrite lookup_insert; case_decide; try apply Hne; intros [= <-]; try done.
  by destruct (validRequests_loop _ _).
Qed.

End RateLimiterMore.

(** X1.  Whatever happened before, among the calls made for one identifier
    with clock readings inside one window [(t - 60 s, t]] the limiter admits
    at most 100, however they are interleaved with calls for other
    identifiers. *)
Theorem X1_at_most_limit_admitted_per_window
  (hist cs : list (string * Z)) (identifier : string) (t : Z) :
  let rl := (serve NewRateLimiter hist).1 in
  Forall (fun c => c.1 = identifier -> t - Minute < c.2 <= t) cs ->
  (admitted identifier cs (serve rl cs).2 <= 100)%nat.
Proof.
  intros rl Hcs.
  assert (limit rl = 100) as Hl by (unfold rl; by rewrite serve_limit).
  assert (window rl = Minute) as Hw by (unfold rl; by rewrite serve_window).
  assert (bounded (serve rl cs).1) as Hb.
  { apply serve_bounded; [lia|]. unfold rl. apply serve_bounded; [done|].
    apply NewRateLimiter_bounded. }
  pose proof (serve_recent rl cs identifier t) as Hrec.
  rewrite Hw in Hrec. specialize (Hrec ltac:(lia) Hcs).
  pose proof (recent_le_stored (serve rl cs).1 identifier t) as H1.
  pose proof (stored_bounded (serve rl cs).1 identifier) as H2.
  rewrite serve_limit, Hl in H2. specialize (H2 ltac:(lia) Hb).
  assert (0 <= len (recent rl identifier t)) by (unfold len; lia).
  lia.
Qed.

Lemma X1_at_most_limit_admitted_per_window_witness :
  (admitted "alice" burst_then (serve NewRateLimiter burst_then).2 <= 100)%nat.
Proof.
  apply (X1_at_most_limit_admitted_per_window [] burst_then "alice" 100).
  apply (bool_decide_unpack _). vm_compute. exact I.
Defined.

(** X2.  Identifiers do not interfere: in any run from a fresh limiter, the
    decisions given to the calls of one identifier, and the timestamps
    stored for it at the end, are those of the run in which only that
    identifier's calls are made. *)
Theorem X2_identifiers_do_not_interfere (cs : list (string * Z)) (identifier : string) :
  (serve NewRateLimiter (calls_of identifier cs)).2
  = answers identifier cs (serve NewRateLimiter cs).2 /\
  stored (serve NewRateLimiter (calls_of identifier cs)).1 identifier
  = stored (serve NewRateLimiter cs).1 identifier.
Proof.
  destruct (serve_local NewRateLimiter NewRateLimiter cs identifier) as [H1 H2];
    done.
Qed.

(** X3.  The limiter never forgets an identifier: after any run from a fresh
    limiter the map holds exactly the identifiers that were ever checked,
    each with at least one timestamp (so the map grows with every new
    identifier, and a rejected or expired identifier is not removed). *)
Theorem X3_identifiers_are_never_evicted (cs : list (string * Z)) :
  let rl := (serve NewRateLimiter cs).1 in
  dom (requests rl) = list_to_set (map fst cs) /\
  (forall i ts, requests rl !! i = Some ts -> ts <> []).
Proof.
  assert (forall rl0,
             dom (requests (serve rl0 cs).1) = list_to_set (map fst cs) ∪ dom (requests rl0) /\
             ((forall j ts, requests rl0 !! j = Some ts -> ts <> []) ->
              forall i ts, requests (serve rl0 cs).1 !! i = Some ts -> ts <> [])) as Hgen.
  { induction cs as [|[i now] cs IH]; intros rl0.
    - split; [|done]. cbn [serve fst map list_to_set]. by rewrite (left_id_L ∅ (∪)).
    - rewrite serve_cons. cbn [fst map list_to_set].
      destruct (IH (checkRateLimit rl0 i now).1) as [IHd IHn]. split.
      + rewrite IHd, checkRateLimit_dom.
        rewrite (comm_L (∪) {[i]} (list_to_set (map fst cs))).
        by rewrite <- (assoc_L (∪)).
      + intros Hne. apply IHn. by apply checkRateLimit_nonempty. }
  intros rl. destruct (Hgen NewRateLimiter) as [Hd Hn]. split.
  - unfold rl. rewrite Hd. unfold NewRateLimiter. cbn [requests].
    by rewrite dom_empty_L, (right_id_L ∅ (∪)).
  - apply Hn. intros j ts. unfold NewRateLimiter. cbn [requests]. by rewrite lookup_empty.
Qed.

(* ===================================================================== *)
(** ** Cache: further properties, for every backend *)
(* ===================================================================== *)

Section CacheMore.
Context {B : Type} `{Backend B} {V : Type} `{Codec V}.

Lemma Get_effects (w : World B) key :
  effects (Get w key).1 = effects w ++ [EvGet key (Get w key).2].
Proof. unfold Get. by destruct (redis_Get (server w) key). Qed.

(** X4.  [Get] sends exactly one [GET], for the prefixed key, and accounts
    for it at most once: a decoded value counts one hit, a [redis.Nil] reply
    one miss, and every other outcome (a backend failure, a payload that
    does not decode) counts nothing.  It never touches [Sets], [Deletes] or
    the configuration. *)
Theorem X4_Get_accounts_once (c : cache.Cache B) (key : string) :
  let reply := (Get (redis c) (createKey c key)).2 in
  let c' := (Cache_Get (V := V) c key).1 in
  let got := (Cache_Get (V := V) c key).2 in
  effects (redis c') = effects (redis c) ++ [EvGet (createKey c key) reply] /\
  (prefix c', expiration c', maxRetries c') = (prefix c, expiration c, maxRetries c) /\
  (Sets (stats c'), Deletes (stats c')) = (Sets (stats c), Deletes (stats c)) /\
  match got with
  | Ok v =>
      (exists data, reply = Ok data /\ json_Unmarshal data = Ok v) /\
      Hits (stats c') = wrap_u64 (Hits (stats c) + 1) /\
      Misses (stats c') = Misses (stats c)
  | Err e =>
      Hits (stats c') = Hits (stats c) /\
      Misses (stats c')
      = (if is_Nil_reply reply then wrap_u64 (Misses (stats c) + 1) else Misses (stats c)) /\
      (is_Nil_reply reply = true <->
       e = errors_Wrap redis_Nil ("key " +:+ createKey c key +:+ " not found"))
  end.
Proof.
  intros reply c' got. subst reply c' got. unfold Cache_Get.
  pose proof (Get_effects (redis c) (createKey c key)) as He.
  destruct (Get (redis c) (createKey c key)) as [w [data|e]]; cbn [fst snd] in *.
  - destruct (json_Unmarshal data) as [v|e'] eqn:Ed; cbn [fst snd].
    + repeat split; try done. by exists data.
    + repeat split; try done.
  - destruct e as [|msg|cause msg]; cbn [is_redis_Nil is_Nil_reply fst snd];
      repeat split; try done; intros [=]; simplify_eq.
Qed.

(** X5.  [GetRaw] sends the same [GET] as [Get] and fails exactly as [Get]
    does when the backend gives no payload; when there is a payload it
    returns it untouched and counts a hit, also for a payload that [Get]
    would refuse to decode.  Whenever [Get] returns a value, [GetRaw] returns
    the payload that decodes to it and leaves the cache in the same state. *)
Theorem X5_GetRaw_agrees_with_Get (c : cache.Cache B) (key : string) :
  let reply := (Get (redis c) (createKey c key)).2 in
  let raw := Cache_GetRaw c key in
  let got := Cache_Get (V := V) c key in
  redis raw.1 = redis got.1 /\
  match reply with
  | Ok data =>
      raw.2 = Ok data /\
      Hits (stats raw.1) = wrap_u64 (Hits (stats c) + 1) /\
      Misses (stats raw.1) = Misses (stats c) /\
      (forall v, got.2 = Ok v -> json_Unmarshal data = Ok v /\ raw.1 = got.1)
  | Err _ =>
      raw.1 = got.1 /\ exists e, raw.2 = Err e /\ got.2 = Err e
  end.
Proof.
  intros reply raw got. subst reply raw got. unfold Cache_GetRaw, Cache_Get.
  destruct (Get (redis c) (createKey c key)) as [w [data|e]]; cbn [fst snd].
  - destruct (json_Unmarshal data) as [v|e'] eqn:Ed; cbn [fst snd].
    + repeat split; try done; by intros v' [= <-].
    + repeat split; done.
  - destruct (is_redis_Nil e); cbn [fst snd]; repeat split; eauto.
Qed.

(** X6.  A cache configured with a negative [MaxRetries] (only 0 is replaced
    by the default) never writes: [Set] of a value that serializes returns
    nil although nothing was sent to the backend, and no counter moves. *)
Theorem X6_Set_with_negative_MaxRetries_is_silent
  (w : World B) (opts : Options) (key : string) (value : V) (data : string) :
  MaxRetries opts < 0 ->
  json_Marshal value = Ok data ->
  let c := NewCacheWithOptions w opts in
  maxRetries c = MaxRetries opts /\
  Cache_Set c key value = (c, None).
Proof.
  intros Hneg Hm c. subst c. unfold Cache_Set. rewrite Hm.
  unfold NewCacheWithOptions at 1 2. cbn [maxRetries].
  destruct (Z.eqb_spec (MaxRetries opts) 0) as [E|E]; [lia|].
  split; [done|]. cbn [maxRetries NewCacheWithOptions].
  destruct (Z.eqb_spec (MaxRetries opts) 0); [lia|].
  destruct (MaxRetries opts); try lia. done.
Qed.

(** The general form of the retry loop. *)
Lemma Set_loop_trace (n : nat) (i : Z) (c : cache.Cache B) fullKey data lastErr :
  let write := EvSetEx fullKey data (expiration c) in
  let c' := (Set_loop n i c fullKey data lastErr).1 in
  let err := (Set_loop n i c fullKey data lastErr).2 in
  i + Z.of_nat n = maxRetries c ->
  (prefix c', expiration c', maxRetries c') = (prefix c, expiration c, maxRetries c) /\
  exists errs : list error,
    ((length errs < n)%nat /\
     effects (redis c') = effects (redis c) ++ retry_trace write errs i ++ [write None] /\
     err = None /\
     stats c' = mkCacheStats (Hits (stats c)) (Misses (stats c))
                             (wrap_u64 (Sets (stats c) + 1)) (Deletes (stats c))) \/
    (length errs = n /\
     effects (redis c') = effects (redis c) ++ removelast (retry_trace write errs i) /\
     err = Wrap (List.last (map Some errs) lastErr)
                ("failed to set cache key " +:+ fullKey +:+ " after "
                   +:+ pretty (maxRetries c) +:+ " retries") /\
     stats c' = stats c).
Proof.
  revert i c lastErr. induction n as [|n IH]; intros i c lastErr write c' err Hn.
  - split; [done|]. exists []. right. subst c' err. cbn. by rewrite app_nil_r.
  - subst c' err.
    destruct (SetEx (redis c) fullKey data (expiration c)) as [w [e|]] eqn:E1;
      pose proof (SetEx_effects _ _ _ _ _ _ E1) as F1.
    2: { rewrite (Set_loop_ok _ _ _ _ _ _ _ E1). split; [done|]. exists []. left.
         cbn. split; [lia|]. by rewrite F1. }
    rewrite (Set_loop_retry _ _ _ _ _ _ _ _ E1).
    set (c1 := if i <? maxRetries c - 1 then _ else _).
    assert ((prefix c1, expiration c1, maxRetries c1, stats c1)
            = (prefix c, expiration c, maxRetries c, stats c)) as Hc1
        by (subst c1; by destruct (i <? maxRetries c - 1)).
    injection Hc1 as Hp Hx Hm Hs.
    destruct (IH (i + 1) c1 (Some e)) as [Hcfg (errs & Hcase)]; [rewrite Hm; lia|].
    rewrite Hp, Hx, Hm in Hcfg. split; [done|].
    rewrite Hx, Hm, Hs in Hcase. exists (e :: errs).
    destruct Hcase as [(Hlen & Heff & Herr & Hst)|(Hlen & Heff & Herr & Hst)].
    + left. split; [simpl; lia|]. split; [|done].
      rewrite Heff. subst c1. destruct (Z.ltb_spec i (maxRetries c - 1)) as [Hi|Hi].
      * cbn. rewrite F1. by rewrite <- !app_assoc.
      * lia.
    + right. split; [simpl; lia|]. split; [|split; [|done]].
      * rewrite Heff. subst c1. destruct (Z.ltb_spec i (maxRetries c - 1)) as [Hi|Hi].
        -- destruct errs as [|e2 errs]; [simpl in Hlen; lia|].
           cbn. rewrite F1. by rewrite <- !app_assoc.
        -- assert (n = 0%nat) as -> by lia. destruct errs; [|done].
           cbn. rewrite F1. by rewrite app_nil_r.
      * rewrite Herr. f_equal. cbn [map]. by rewrite last_cons_default.
Qed.


Lemma SetBatch_loop_all (c : cache.Cache B) (items : list (string * V)) cmds queued :
  Forall2 (fun kv cmd => cmd.1 = createKey c kv.1 /\ json_Marshal kv.2 = Ok cmd.2)
          items cmds ->
  SetBatch_loop c items queued = Ok (queued ++ cmds).
Proof.
  intros Hall. revert queued.
  induction Hall as [|[key value] [fullKey data] items cmds [Hk Hm] _ IH]; intros queued.
  - cbn. by rewrite app_nil_r.
  - cbn [fst snd] in *. subst fullKey. cbn [SetBatch_loop]. rewrite Hm, IH.
    by rewrite <- app_assoc.
Qed.

Lemma SetBatch_loop_first_failure (c : cache.Cache B) (items1 : list (string * V))
  key value items2 queued e :
  Forall (fun kv => exists data, json_Marshal kv.2 = Ok data) items1 ->
  json_Marshal value = Err e ->
  SetBatch_loop c (items1 ++ (key, value) :: items2) queued
  = Err (errors_Wrap e ("failed to marshal value for key " +:+ key)).
Proof.
  intros Hall He. revert queued.
  induction Hall as [|[k v] items1 [data Hd] _ IH]; intros queued.
  - cbn. by rewrite He.
  - cbn [app SetBatch_loop]. cbn [snd] in Hd. rewrite Hd. apply IH.
Qed.

Lemma pipeline_SetExs_spec (w : World B) cmds ttl :
  let sent := pipeline_SetExs w cmds ttl in
  length sent.2 = length cmds /\
  effects sent.1
  = effects w ++ zip_with (fun cmd r => EvSetEx cmd.1 cmd.2 ttl r) cmds sent.2.
Proof.
  revert w. induction cmds as [|[key data] cmds IH]; intros w.
  - cbn. by rewrite app_nil_r.
  - cbn [pipeline_SetExs].
    destruct (SetEx w key data ttl) as [w1 r] eqn:E1.
    pose proof (SetEx_effects _ _ _ _ _ _ E1) as F1.
    destruct (IH w1) as [IHl IHe]. destruct (pipeline_SetExs w1 cmds ttl) as [w2 rs].
    cbn [fst snd length zip_with] in *. split; [by rewrite IHl|].
    rewrite IHe, F1. by rewrite <- app_assoc.
Qed.

Lemma repliesFirstErr_None replies :
  repliesFirstErr replies = None <-> Forall (fun r => r = None) replies.
Proof.
  induction replies as [|[e|] replies IH]; cbn.
  - split; [done|constructor].
  - split; [done|]. by inversion 1.
  - rewrite IH. split; [by constructor|]. by inversion 1.
Qed.

Lemma repliesFirstErr_Some replies e :
  repliesFirstErr replies = Some e -> In (Some e) replies.
Proof.
  induction replies as [|[e'|] replies IH]; cbn; [done| |].
  - intros [= ->]. by left.
  - intros He. right. by apply IH.
Qed.

(** X8.  [SetBatch] serializes every value before it sends anything: as soon
    as one value does not serialize it returns that error, naming the key,
    and the writes it had queued for the earlier items are dropped; the
    backend and the counters are untouched. *)
Theorem X8_SetBatch_sends_nothing_unless_all_serialize
  (c : cache.Cache B) (items1 items2 : list (string * V)) (key : string) (value : V)
  (ttl : Z) (e : error) :
  Forall (fun kv => exists data, json_Marshal kv.2 = Ok data) items1 ->
  json_Marshal value = Err e ->
  Cache_SetBatch c (items1 ++ (key, value) :: items2) ttl
  = (c, Some (errors_Wrap e ("failed to marshal value for key " +:+ key))).
Proof.
  intros Hall He. unfold Cache_SetBatch.
  by rewrite (SetBatch_loop_first_failure c items1 key value items2 [] e Hall He).
Qed.

(** X9.  When every value serializes, [SetBatch] sends one write per item,
    in order, each for the prefixed key with the given [ttl].  It returns nil
    exactly when every write was accepted, and then [Sets] grows by the
    number of items.  When any write failed it returns the first error,
    wrapped, and no counter moves, although every write was sent and those
    that were accepted stay in the backend. *)
Theorem X9_SetBatch_counts_all_or_nothing
  (c : cache.Cache B) (items : list (string * V)) (cmds : list (string * string))
  (ttl : Z) :
  Forall2 (fun kv cmd => cmd.1 = createKey c kv.1 /\ json_Marshal kv.2 = Ok cmd.2)
          items cmds ->
  let sent := pipeline_SetExs (redis c) cmds ttl in
  let c' := (Cache_SetBatch c items ttl).1 in
  let err := (Cache_SetBatch c items ttl).2 in
  redis c' = sent.1 /\
  length sent.2 = length items /\
  effects (redis c')
  = effects (redis c) ++ zip_with (fun cmd r => EvSetEx cmd.1 cmd.2 ttl r) cmds sent.2 /\
  (err = None <-> Forall (fun r => r = None) sent.2) /\
  match err with
  | None =>
      stats c' = mkCacheStats (Hits (stats c)) (Misses (stats c))
                              (wrap_u64 (Sets (stats c) + len items)) (Deletes (stats c))
  | Some e' =>
      stats c' = stats c /\
      exists e, e' = errors_Wrap e "failed to execute pipeline" /\ In (Some e) sent.2
  end.
Proof.
  intros Hall sent c' err. subst sent c' err. unfold Cache_SetBatch, Exec_SetExs.
  rewrite (SetBatch_loop_all c items cmds [] Hall). cbn [app].
  destruct (pipeline_SetExs_spec (redis c) cmds ttl) as [Hlen Heff].
  pose proof (Forall2_length _ _ _ Hall) as Hl.
  destruct (pipeline_SetExs (redis c) cmds ttl) as [w replies]. cbn [fst snd] in *.
  pose proof (repliesFirstErr_None replies) as HN.
  pose proof (repliesFirstErr_Some replies) as HS.
  destruct (repliesFirstErr replies) as [e|]; cbn [fst snd].
  - repeat split; try done; try lia.
    + intros Hf. by apply HN in Hf.
    + exists e. split; [done|]. by apply HS.
  - repeat split; try done; try lia.
    + by apply HN.
    + cbn. by rewrite wrap_u64_add_r.
Qed.

(** X10.  When the pipeline of [GetBatch] fails, the destination map and the
    counters are left as they were, whatever the replies to the other keys
    were, and the error returned wraps the pipeline's error. *)
Theorem X10_GetBatch_failure_changes_nothing
  (c : cache.Cache B) (keys : list string) (dest : gmap string V) :
  let res := Cache_GetBatch c keys dest in
  res.2 <> None ->
  res.1.2 = dest /\ stats res.1.1 = stats c /\
  exists e, is_redis_Nil e = false /\
            res.2 = Some (errors_Wrap e "failed to execute pipeline").
Proof.
  intros res. subst res. unfold Cache_GetBatch.
  destruct (Exec (redis c) (map (createKey c) keys)) as [w [cmds [e|]]].
  - destruct (is_redis_Nil e) eqn:En; cbn [negb].
    + destruct (GetBatch_loop keys cmds dest 0 0) as [[d h] m]. by cbn.
    + intros _. cbn. repeat split. by exists e.
  - destruct (GetBatch_loop keys cmds dest 0 0) as [[d h] m]. by cbn.
Qed.

End CacheMore.

(* ===================================================================== *)
(** ** Cache: further properties, on the in-memory backend *)
(* ===================================================================== *)

Section MemFacts.

Lemma append_inj_r (p a b : string) : p +:+ a = p +:+ b -> a = b.
Proof. induction p as [|ch p IH]; cbn; [done|]. intros [= E]. by apply IH. Qed.

Lemma createKey_inj {B} (c : cache.Cache B) k1 k2 : createKey c k1 = createKey c k2 -> k1 = k2.
Proof. unfold createKey. intros E. apply append_inj_r in E. by apply (append_inj_r ":"). Qed.

Lemma mem_SetEx (w : World MemRedis) key data ttl :
  faults (server w) = [] ->
  SetEx w key data ttl
  = (mkWorld (mkMemRedis (<[key := (data, ttl)]> (kv (server w))) [])
             (effects w ++ [EvSetEx key data ttl None]), None).
Proof.
  intros Hf. unfold SetEx. cbn [redis_SetEx MemRedis_Backend]. unfold next_fault.
  rewrite Hf. cbn. by rewrite Hf.
Qed.

Lemma mem_Get (w : World MemRedis) key :
  faults (server w) = [] ->
  (Get w key).2 = match kv (server w) !! key with
                  | Some (data, _) => Ok data
                  | None => Err redis_Nil
                  end /\
  server (Get w key).1 = server w.
Proof.
  intros Hf. unfold Get. cbn [redis_Get MemRedis_Backend]. unfold next_fault.
  rewrite Hf. by destruct (kv (server w) !! key) as [[data ttl]|].
Qed.

Lemma mem_del_spec m keys :
  ((mem_del m keys).2 = len keys <->
   NoDup keys /\ forall k, In k keys -> is_Some (m !! k)) /\
  (forall k, In k keys -> (mem_del m keys).1 !! k = None) /\
  (forall k, ~ In k keys -> (mem_del m keys).1 !! k = m !! k).
Proof.
  revert m. induction keys as [|key keys IH]; intros m.
  - cbn. repeat split; try done. constructor.
  - cbn [mem_del]. destruct (m !! key) as [x|] eqn:Ek.
    + destruct (IH (delete key m)) as (IHn & IHin & IHout).
      pose proof (mem_del_le (delete key m) keys) as Hle.
      destruct (mem_del (delete key m) keys) as [m' n]. cbn [fst snd] in *.
      split; [|split].
      * unfold len in *. cbn [length]. rewrite Nat2Z.inj_succ.
        split.
        -- intros Hn. destruct IHn as [IHn _]. destruct (IHn ltac:(lia)) as [Hnd Hall].
           split.
           ++ apply NoDup_cons. split; [|done]. intros Hin%list_elem_of_In.
              destruct (Hall key Hin) as [y Hy]. by rewrite lookup_delete_eq in Hy.
           ++ intros k [<-|Hin]; [eauto|]. destruct (Hall k Hin) as [y Hy].
              destruct (decide (key = k)) as [->|Hne]; [eauto|].
              rewrite lookup_delete_ne in Hy by done. eauto.
        -- intros [Hnd Hall]. apply NoDup_cons in Hnd as [Hnotin Hnd].
           destruct IHn as [_ IHn]. rewrite IHn; [lia|]. split; [done|].
           intros k Hin. rewrite lookup_delete_ne; [apply Hall; by right|].
           intros ->. apply Hnotin. by apply list_elem_of_In.
      * intros k [<-|Hin]; [|by apply IHin].
        destruct (in_dec string_dec key keys) as [Hin|Hout]; [by apply IHin|].
        rewrite IHout by done. apply lookup_delete_eq.
      * intros k Hk. rewrite IHout by (intros Hin; apply Hk; by right).
        apply lookup_delete_ne. intros ->. apply Hk. by left.
    + destruct (IH m) as (IHn & IHin & IHout).
      pose proof (mem_del_le m keys) as Hle.
      split; [|split].
      * unfold len in *. cbn [length]. rewrite Nat2Z.inj_succ. split; [lia|].
        intros [_ Hall]. destruct (Hall key (or_introl eq_refl)) as [y Hy]. congruence.
      * intros k [<-|Hin]; [|by apply IHin].
        destruct (in_dec string_dec key keys) as [Hin|Hout]; [by apply IHin|].
        by rewrite IHout.
      * intros k Hk. apply IHout. intros Hin. apply Hk. by right.
Qed.

Lemma mem_Get_full (w : World MemRedis) key :
  faults (server w) = [] ->
  Get w key
  = let reply := match kv (server w) !! key with
                 | Some (data, _) => Ok data
                 | None => Err redis_Nil
                 end in
    (mkWorld (server w) (effects w ++ [EvGet key reply]), reply).
Proof.
  intros Hf. unfold Get. cbn [redis_Get MemRedis_Backend]. unfold next_fault.
  rewrite Hf. by destruct (kv (server w) !! key) as [[data ttl]|].
Qed.

End MemFacts.

Section MemClaims.
Context {V : Type} `{Codec V}.


End MemClaims.

(** X12.  On a backend that answers, [Delete] returns nil exactly when every
    requested key is present and no key is requested twice (a repeated key
    is removed once and reported once).  Whatever it returns, every
    requested key is absent afterwards and no other key of the backend is
    touched. *)
Theorem X12_Delete_succeeds_iff_present_and_distinct
  (c : cache.Cache MemRedis) (keys : list string) :
  faults (server (redis c)) = [] ->
  keys <> [] ->
  let c' := (Cache_Delete c keys).1 in
  ((Cache_Delete c keys).2 = None <->
   NoDup keys /\
   forall k, In k keys -> is_Some (kv (server (redis c)) !! createKey c k)) /\
  (forall k, In k keys -> kv (server (redis c')) !! createKey c k = None) /\
  (forall fullKey, ~ In fullKey (map (createKey c) keys) ->
                   kv (server (redis c')) !! fullKey = kv (server (redis c)) !! fullKey).
Proof.
  intros Hf Hne c'. subst c'. unfold Cache_Delete, Del.
  rewrite (len_nonempty keys Hne). cbn [redis_Del MemRedis_Backend]. unfold next_fault.
  rewrite Hf.
  destruct (mem_del_spec (kv (server (redis c))) (map (createKey c) keys))
    as (Hn & Hin & Hout).
  destruct (mem_del (kv (server (redis c))) (map (createKey c) keys)) as [m n].
  cbn [fst snd] in *.
  assert (len (map (createKey c) keys) = len keys) as Hlen
      by (unfold len; by rewrite length_map).
  rewrite Hlen in Hn.
  assert ((NoDup (map (createKey c) keys) /\
           forall k, In k (map (createKey c) keys) -> is_Some (kv (server (redis c)) !! k))
          <-> (NoDup keys /\
               forall k, In k keys -> is_Some (kv (server (redis c)) !! createKey c k)))
    as Hiff.
  { split; intros [Hnd Hall]; split.
    - eapply (NoDup_fmap_1 (createKey c)). exact Hnd.
    - intros k Hk. apply Hall. by apply in_map.
    - apply NoDup_fmap_2; [|done]. intros k1 k2. apply createKey_inj.
    - intros k (k0 & <- & Hk0)%in_map_iff. by apply Hall. }
  destruct (Z.eqb_spec n (len keys)) as [En|En]; cbn [negb fst snd].
  - repeat split; try done.
    + apply Hiff. by apply Hn.
    + apply Hiff. by apply Hn.
    + intros k Hk. apply Hin. by apply in_map.
  - repeat split; try done.
    + intros [Hnd Hall]. exfalso. apply En. apply Hn. apply Hiff. done.
    + intros k Hk. apply Hin. by apply in_map.
Qed.

Section MemBatch.
Context {V : Type} `{Codec V}.

Lemma fold_insert_notin {X Y} (g : Y -> X) (l : list (string * Y)) (m : gmap string X) k :
  ~ In k (map fst l) ->
  fold_left (fun m x => <[x.1 := g x.2]> m) l m !! k = m !! k.
Proof.
  revert m. induction l as [|[k0 y0] l IH]; intros m Hk; [done|].
  cbn [fold_left fst snd]. rewrite IH by (intros Hin; apply Hk; by right).
  apply lookup_insert_ne. intros ->. apply Hk. by left.
Qed.

Lemma fold_insert_in {X Y} (g : Y -> X) (l : list (string * Y)) (m : gmap string X) k y :
  NoDup (map fst l) -> In (k, y) l ->
  fold_left (fun m x => <[x.1 := g x.2]> m) l m !! k = Some (g y).
Proof.
  revert m. induction l as [|[k0 y0] l IH]; intros m Hnd Hin; [done|].
  cbn [map fst] in Hnd. apply NoDup_cons in Hnd as [Hnotin Hnd].
  cbn [fold_left fst snd]. destruct Hin as [[= -> ->]|Hin].
  - rewrite fold_insert_notin by (intros Hin; by apply Hnotin, list_elem_of_In).
    apply lookup_insert_eq.
  - by apply IH.
Qed.

Lemma mem_pipeline_SetExs (w : World MemRedis) cmds ttl :
  faults (server w) = [] ->
  let sent := pipeline_SetExs w cmds ttl in
  repliesFirstErr sent.2 = None /\
  faults (server sent.1) = [] /\
  kv (server sent.1)
  = fold_left (fun m cmd => <[cmd.1 := (fun d => (d, ttl)) cmd.2]> m) cmds (kv (server w)).
Proof.
  revert w. induction cmds as [|[key data] cmds IH]; intros w Hf; [done|].
  cbn [pipeline_SetExs]. rewrite (mem_SetEx w key data ttl Hf).
  set (w1 := mkWorld _ _).
  destruct (IH w1 eq_refl) as (IH1 & IH2 & IH3).
  destruct (pipeline_SetExs w1 cmds ttl) as [w2 rs]. cbn [fst snd] in *.
  done.
Qed.

Lemma mem_pipeline_Gets (s : MemRedis) keys :
  faults s = [] ->
  pipeline_Gets s keys
  = (s, map (fun key => match kv s !! key with
                        | Some (data, _) => Ok data
                        | None => Err redis_Nil
                        end) keys).
Proof.
  intros Hf. induction keys as [|key keys IH]; [done|].
  cbn [pipeline_Gets map]. cbn [redis_Get MemRedis_Backend]. unfold next_fault.
  rewrite Hf. destruct (kv s !! key) as [[data t]|]; by rewrite IH.
Qed.

Lemma decoded_all (c : cache.Cache MemRedis) (m : gmap string (string * Z))
  (items : list (string * V)) :
  lawful V ->
  Forall (fun kv => exists data t, m !! createKey c kv.1 = Some (data, t) /\
                                   json_Marshal kv.2 = Ok data) items ->
  let cmds := map (fun key => match m !! key with
                              | Some (data, _) => Ok data
                              | None => Err redis_Nil
                              end) (map (createKey c) (map fst items)) in
  decoded (map fst items) cmds = items /\
  length (List.filter (decodes (V := V)) cmds) = length items /\
  length (List.filter is_Nil_reply cmds) = 0%nat.
Proof.
  intros Hlaw Hall cmds. subst cmds.
  induction Hall as [|[k v] items (data & t & Hk & Hm) _ IH]; [done|].
  cbn [fst snd] in *. destruct IH as (IH1 & IH2 & IH3).
  cbn [map fst]. rewrite Hk. unfold decoded.
  cbn [zip zip_with omap list_omap decode_reply fst snd List.filter decodes is_Nil_reply].
  rewrite (Hlaw v data Hm). cbn [length].
  change (omap decode_reply (zip (map fst items) ?x)) with (decoded (map fst items) x).
  by rewrite IH1, IH2, IH3.
Qed.


End MemBatch.

Section MemScenario.
Context {V : Type} `{Codec V}.

Lemma mem_Cache_Set (c : cache.Cache MemRedis) key (v : V) data :
  faults (server (redis c)) = [] -> 1 <= maxRetries c -> json_Marshal v = Ok data ->
  Cache_Set c key v
  = (incrementStats
       (with_redis c (mkWorld (mkMemRedis (<[createKey c key := (data, expiration c)]>
                                             (kv (server (redis c)))) [])
                              (effects (redis c)
                                 ++ [EvSetEx (createKey c key) data (expiration c) None])))
       "sets", None).
Proof.
  intros Hf Hn Hm. unfold Cache_Set. rewrite Hm.
  destruct (Z.to_nat (maxRetries c)) as [|n] eqn:En; [lia|].
  apply Set_loop_ok. by apply mem_SetEx.
Qed.

Lemma mem_Cache_Get_hit (c : cache.Cache MemRedis) key (v : V) data t :
  faults (server (redis c)) = [] ->
  kv (server (redis c)) !! createKey c key = Some (data, t) ->
  json_Unmarshal data = Ok v ->
  Cache_Get c key
  = (incrementStats
       (with_redis c (mkWorld (server (redis c))
                              (effects (redis c) ++ [EvGet (createKey c key) (Ok data)])))
       "hits", Ok v).
Proof.
  intros Hf Hk Hu. unfold Cache_Get. rewrite (mem_Get_full _ _ Hf), Hk.
  cbn zeta iota beta. by rewrite Hu.
Qed.

Lemma mem_Cache_Get_miss (c : cache.Cache MemRedis) key :
  faults (server (redis c)) = [] ->
  kv (server (redis c)) !! createKey c key = None ->
  Cache_Get (V := V) c key
  = (incrementStats
       (with_redis c (mkWorld (server (redis c))
                              (effects (redis c) ++ [EvGet (createKey c key) (Err redis_Nil)])))
       "misses",
     Err (errors_Wrap redis_Nil ("key " +:+ createKey c key +:+ " not found"))).
Proof.
  intros Hf Hk. unfold Cache_Get. by rewrite (mem_Get_full _ _ Hf), Hk.
Qed.

Lemma mem_Cache_Delete_one (c : cache.Cache MemRedis) key x :
  faults (server (redis c)) = [] ->
  kv (server (redis c)) !! createKey c key = Some x ->
  Cache_Delete c [key]
  = (incrementStats
       (with_redis c (mkWorld (mkMemRedis (delete (createKey c key) (kv (server (redis c)))) [])
                              (effects (redis c) ++ [EvDel [createKey c key] (Ok 1)])))
       "deletes", None).
Proof.
  intros Hf Hk. unfold Cache_Delete, Del. cbn [len length Z.of_nat Z.eqb map].
  cbn [redis_Del MemRedis_Backend]. unfold next_fault. rewrite Hf.
  cbn [mem_del]. rewrite Hk. cbn. by rewrite Hf.
Qed.


End MemScenario.

(* ===================================================================== *)
(** ** Handler: further properties *)
(* ===================================================================== *)

Section HandlerMore.
Context {B : Type} `{Backend B} `{Codec CallResponse}.

Lemma checkRateLimit_rejected_unchanged rl i t :
  (checkRateLimit rl i t).2 = false -> (checkRateLimit rl i t).1 = rl.
Proof.
  unfold checkRateLimit. destruct (requests rl !! i); [|done].
  by destruct (_ >=? _).
Qed.

Lemma validateRequest_messages req err :
  validateRequest req = Some err ->
  err = errors_New "request is nil" \/ err = errors_New "name is required" \/
  err = errors_New "name is too long".
Proof.
  unfold validateRequest. destruct req as [r|]; [|intros [= <-]; by left].
  destruct (String.eqb _ _); [intros [= <-]; right; by left|].
  destruct (_ >? _); [intros [= <-]; right; by right|done].
Qed.

Lemma Call_unfold (b : Blueprint B) env req :
  Call b env req
  = (recordMetrics (Call_body b env req).1 (elapsed env) None, (Call_body b env req).2).
Proof. unfold Call. by destruct (Call_body b env req). Qed.

Lemma Call_hit (b : Blueprint B) env r cached :
  validateRequest (Some r) = None ->
  (checkRateLimit (rateLimiter b) (Name r) (now env)).2 = true ->
  (Cache_Get (Cache b) ("call:" +:+ Name r)).2 = Ok cached ->
  Call b env (Some r)
  = (recordMetrics
       (incrementCacheHit
          (with_Cache
             (with_rateLimiter b (checkRateLimit (rateLimiter b) (Name r) (now env)).1)
             (Cache_Get (V := CallResponse) (Cache b) ("call:" +:+ Name r)).1))
       (elapsed env) None,
     (Some cached, None)).
Proof.
  intros Hv Hrl Hhit. rewrite Call_unfold. unfold Call_body. rewrite Hv.
  cbn [req_Name]. destruct (checkRateLimit _ _ _) as [rl ok]. cbn [fst snd] in *. subst ok.
  cbn [negb with_rateLimiter Cache]. destruct (Cache_Get _ _) as [c got].
  cbn [snd] in Hhit. by subst got.
Qed.

Lemma Call_miss (b : Blueprint B) env r :
  validateRequest (Some r) = None ->
  (checkRateLimit (rateLimiter b) (Name r) (now env)).2 = true ->
  (forall cached, (Cache_Get (Cache b) ("call:" +:+ Name r)).2 <> Ok cached) ->
  ctx_Err env = None ->
  Call b env (Some r)
  = (recordMetrics
       (with_Cache
          (incrementCacheMiss
             (with_Cache
                (with_rateLimiter b (checkRateLimit (rateLimiter b) (Name r) (now env)).1)
                (Cache_Get (V := CallResponse) (Cache b) ("call:" +:+ Name r)).1))
          (Cache_SetWithTTL
             (Cache_Get (V := CallResponse) (Cache b) ("call:" +:+ Name r)).1
             ("call:" +:+ Name r) (greeting (Name r)) (5 * Minute)).1)
       (elapsed env) None,
     (Some (greeting (Name r)), None)).
Proof.
  intros Hv Hrl Hmiss Hctx. rewrite Call_unfold. unfold Call_body. rewrite Hv.
  cbn [req_Name]. destruct (checkRateLimit _ _ _) as [rl ok]. cbn [fst snd] in *. subst ok.
  cbn [negb with_rateLimiter Cache].
  destruct (Cache_Get _ _) as [c [cached|e]]; [by destruct (Hmiss cached)|].
  unfold processBusinessLogic. rewrite Hctx. cbn [fst snd incrementCacheMiss with_metrics Cache].
  fold (greeting (Name r)). by destruct (Cache_SetWithTTL _ _ _ _).
Qed.

(** X14.  A request that fails validation is answered [InvalidArgument] with
    the validation message, and changes nothing but the request counters:
    the rate limiter is not consulted (no quota is used), the cache and the
    backend are not touched, and neither [CacheHits] nor [CacheMisses]
    moves. *)
Theorem X14_invalid_request_touches_only_request_counters
  (b : Blueprint B) (env : Env) (req : option CallRequest) (err : error) :
  validateRequest req = Some err ->
  let out := Call b env req in
  out.2 = (None, Some (status_Error InvalidArgument (Error err))) /\
  (err = errors_New "request is nil" \/ err = errors_New "name is required" \/
   err = errors_New "name is too long") /\
  Cache out.1 = Cache b /\
  rateLimiter out.1 = rateLimiter b /\
  (CacheHits (metrics out.1), CacheMisses (metrics out.1))
  = (CacheHits (metrics b), CacheMisses (metrics b)).
Proof.
  intros Hv out. subst out. rewrite Call_unfold. unfold Call_body. rewrite Hv.
  cbn [fst snd]. repeat split; try done. by apply (validateRequest_messages req).
Qed.

(** X15.  A valid request that the rate limiter rejects is answered
    [ResourceExhausted]; it reaches neither the cache nor the backend, it is
    not recorded by the limiter (a rejected call does not prolong the
    rejection), and neither [CacheHits] nor [CacheMisses] moves. *)
Theorem X15_rate_limited_request_reaches_no_cache
  (b : Blueprint B) (env : Env) (r : CallRequest) :
  validateRequest (Some r) = None ->
  (checkRateLimit (rateLimiter b) (Name r) (now env)).2 = false ->
  let out := Call b env (Some r) in
  out.2 = (None, Some (status_Error ResourceExhausted "rate limit exceeded")) /\
  Cache out.1 = Cache b /\
  rateLimiter out.1 = rateLimiter b /\
  (CacheHits (metrics out.1), CacheMisses (metrics out.1))
  = (CacheHits (metrics b), CacheMisses (metrics b)).
Proof.
  intros Hv Hrl out. subst out. rewrite Call_unfold. unfold Call_body. rewrite Hv.
  cbn [req_Name]. pose proof (checkRateLimit_rejected_unchanged _ _ _ Hrl) as Hsame.
  destruct (checkRateLimit _ _ _) as [rl ok]. cbn [fst snd] in *. subst ok rl.
  cbn [negb fst snd]. by destruct b.
Qed.

(** X16.  When the cache answers a valid, admitted request, [Call] returns
    the cached response as it was decoded, whatever it says and whatever the
    state of the context: the business logic does not run, nothing is written
    back, the only command sent is the [GET], and [CacheHits] grows by one. *)
Theorem X16_cache_hit_is_returned_as_is
  (b : Blueprint B) (env : Env) (r : CallRequest) (cached : CallResponse) :
  validateRequest (Some r) = None ->
  (checkRateLimit (rateLimiter b) (Name r) (now env)).2 = true ->
  (Cache_Get (Cache b) ("call:" +:+ Name r)).2 = Ok cached ->
  let out := Call b env (Some r) in
  out.2 = (Some cached, None) /\
  Cache out.1 = (Cache_Get (V := CallResponse) (Cache b) ("call:" +:+ Name r)).1 /\
  rateLimiter out.1 = (checkRateLimit (rateLimiter b) (Name r) (now env)).1 /\
  CacheHits (metrics out.1) = wrap_u64 (CacheHits (metrics b) + 1) /\
  CacheMisses (metrics out.1) = CacheMisses (metrics b).
Proof.
  intros Hv Hrl Hhit out. subst out. by rewrite (Call_hit b env r cached Hv Hrl Hhit).
Qed.

(** X17.  When the cache does not answer and the context is already done,
    [Call] returns [Internal] with the fixed message "internal server error"
    (the cause is not exposed), nothing is written to the cache, the miss is
    counted and the admission stays recorded by the rate limiter. *)
Theorem X17_cancelled_context_fails_without_caching
  (b : Blueprint B) (env : Env) (r : CallRequest) (cause : error) :
  validateRequest (Some r) = None ->
  (checkRateLimit (rateLimiter b) (Name r) (now env)).2 = true ->
  (forall cached, (Cache_Get (Cache b) ("call:" +:+ Name r)).2 <> Ok cached) ->
  ctx_Err env = Some cause ->
  let out := Call b env (Some r) in
  out.2 = (None, Some (status_Error Internal "internal server error")) /\
  Cache out.1 = (Cache_Get (V := CallResponse) (Cache b) ("call:" +:+ Name r)).1 /\
  rateLimiter out.1 = (checkRateLimit (rateLimiter b) (Name r) (now env)).1 /\
  CacheHits (metrics out.1) = CacheHits (metrics b) /\
  CacheMisses (metrics out.1) = wrap_u64 (CacheMisses (metrics b) + 1).
Proof.
  intros Hv Hrl Hmiss Hctx out. subst out. rewrite Call_unfold. unfold Call_body.
  rewrite Hv. cbn [req_Name]. destruct (checkRateLimit _ _ _) as [rl ok].
  cbn [fst snd] in *. subst ok. cbn [negb with_rateLimiter Cache].
  destruct (Cache_Get _ _) as [c [cached|e]]; [by destruct (Hmiss cached)|].
  unfold processBusinessLogic. rewrite Hctx. done.
Qed.

(** X19.  The running average never leaves the range of the samples: when
    the average so far and the new elapsed time lie between 0 and a bound
    below 2^62 ns, so does the new average; it lies between the old average
    and the sample, and an average of 0 is replaced by the sample. *)
Theorem X19_average_stays_within_samples
  (b : Blueprint B) (env : Env) (req : option CallRequest) (M : Z) :
  0 <= AvgResponseTime (metrics b) <= M ->
  0 <= elapsed env <= M ->
  M < 2 ^ 62 ->
  let a := AvgResponseTime (metrics b) in
  let a' := AvgResponseTime (metrics (Call b env req).1) in
  0 <= a' <= M /\
  Z.min a (elapsed env) <= a' <= Z.max a (elapsed env) /\
  (a = 0 -> a' = elapsed env).
Proof.
  intros Ha Hd HM a a'. subst a a'.
  destruct (Call_metrics b env req) as (_ & _ & _ & ->).
  destruct (Z.eqb_spec (AvgResponseTime (metrics b)) 0) as [E|E]; [lia|].
  assert (wrap_i64 (AvgResponseTime (metrics b) + elapsed env)
          = AvgResponseTime (metrics b) + elapsed env) as ->.
  { unfold wrap_i64. rewrite Z.mod_small; lia. }
  rewrite Z.quot_div_nonneg by lia.
  pose proof (Z.div_mod (AvgResponseTime (metrics b) + elapsed env) 2 ltac:(lia)).
  pose proof (Z.mod_pos_bound (AvgResponseTime (metrics b) + elapsed env) 2 ltac:(lia)).
  lia.
Qed.

End HandlerMore.

Section HandlerRuns.
Context {B : Type} `{Backend B} `{Codec CallResponse}.

Lemma Call_rateLimiter (b : Blueprint B) env r :
  validateRequest (Some r) = None ->
  rateLimiter (Call b env (Some r)).1
  = (checkRateLimit (rateLimiter b) (Name r) (now env)).1.
Proof.
  intros Hv. rewrite Call_unfold. unfold Call_body. rewrite Hv. cbn [req_Name].
  destruct (checkRateLimit _ _ _) as [rl [|]]; cbn [negb fst]; [|done].
  destruct (Cache_Get _ _) as [c [cached|e]]; [done|].
  destruct (processBusinessLogic env); [done|].
  by destruct (Cache_SetWithTTL _ _ _ _).
Qed.

Lemma Calls_rateLimiter (b : Blueprint B) r envs :
  validateRequest (Some r) = None ->
  rateLimiter (Calls b (map (fun e => (e, Some r)) envs)).1
  = (serve (rateLimiter b) (map (fun e => (Name r, now e)) envs)).1.
Proof.
  intros Hv. revert b. induction envs as [|e envs IH]; intros b; [done|].
  cbn [map Calls]. rewrite serve_cons. cbn [fst].
  pose proof (Call_rateLimiter b e r Hv) as Hrl.
  destruct (Call b e (Some r)) as [b1 ret]. cbn [fst] in Hrl.
  specialize (IH b1). destruct (Calls b1 _) as [b2 rets]. cbn [fst] in *.
  by rewrite IH, Hrl.
Qed.

Lemma serve_all_admitted rl i (ts : list Z) :
  1 <= limit rl ->
  len (stored rl i) + len ts <= limit rl ->
  admitted i (map (fun t => (i, t)) ts) (serve rl (map (fun t => (i, t)) ts)).2
  = length ts.
Proof.
  revert rl. induction ts as [|t ts IH]; intros rl Hl Hroom; [done|].
  cbn [map]. rewrite serve_cons. cbn [admitted snd]. rewrite String.eqb_refl.
  unfold len in Hroom. cbn [length] in Hroom.
  assert ((checkRateLimit rl i t).2 = true /\
          len (stored (checkRateLimit rl i t).1 i) <= len (stored rl i) + 1) as [Hok Hgrow].
  { rewrite checkRateLimit_Allow_spec by done. unfold Allow_spec.
    pose proof (List.filter_length_le (fun x => t - window rl <? x) (stored rl i)) as Hle.
    destruct (limit rl <=? _) eqn:E.
    - apply Z.leb_le in E. unfold len in *. lia.
    - cbn [fst snd]. split; [done|]. rewrite stored_insert. case_decide; [|done].
      unfold len. rewrite length_app. cbn [length]. lia. }
  rewrite Hok. cbn [andb]. rewrite IH.
  - done.
  - by rewrite checkRateLimit_limit.
  - rewrite checkRateLimit_limit. unfold len in *. lia.
Qed.

(** X20.  After 100 valid calls for one name on a fresh handler, all made
    within the minute that ends at the next call, that next call for the
    same name is refused with [ResourceExhausted], whatever the cache and
    the backend answered in between. *)
Theorem X20_call_101_is_refused
  (c : cache.Cache B) (r : CallRequest) (envs : list Env) (env : Env) :
  validateRequest (Some r) = None ->
  length envs = 100%nat ->
  Forall (fun e => now env - Minute < now e <= now env) envs ->
  let b := (Calls (NewBlueprint c) (map (fun e => (e, Some r)) envs)).1 in
  (Call b env (Some r)).2
  = (None, Some (status_Error ResourceExhausted "rate limit exceeded")).
Proof.
  intros Hv Hlen Hwin b.
  assert (rateLimiter b
          = (serve NewRateLimiter (map (fun t => (Name r, t)) (map now envs))).1) as Hrl.
  { unfold b. rewrite (Calls_rateLimiter _ r envs Hv). by rewrite List.map_map. }
  assert ((checkRateLimit (rateLimiter b) (Name r) (now env)).2 = false) as Hrej.
  { assert (stored NewRateLimiter (Name r) = []) as Hfresh
        by (unfold stored, NewRateLimiter; cbn [requests]; by rewrite lookup_empty).
    rewrite Hrl. apply checkRateLimit_rejects_full.
    - by rewrite serve_limit.
    - rewrite serve_limit.
      rewrite (serve_recent NewRateLimiter _ (Name r) (now env)); [|done|].
      + rewrite serve_all_admitted; [|done|].
        * unfold recent. rewrite Hfresh, length_map, Hlen. by cbn.
        * rewrite Hfresh. unfold len. rewrite length_map, Hlen. by cbn.
      + apply Forall_forall. intros [i t] Hin%list_elem_of_In _.
        apply in_map_iff in Hin as (t0 & [= <- <-] & Hin).
        apply in_map_iff in Hin as (e & <- & Hin).
        rewrite Forall_forall in Hwin. apply (Hwin e). by apply list_elem_of_In. }
  rewrite Call_unfold. unfold Call_body. rewrite Hv. cbn [req_Name].
  destruct (checkRateLimit _ _ _) as [rl ok]. cbn [snd] in Hrej. by subst ok.
Qed.

End HandlerRuns.

Section MemHandler.
Context `{Codec CallResponse}.


End MemHandler.

(* ===================================================================== *)
(** ** Configuration: properties *)
(* ===================================================================== *)

Section ConfigFacts.

Lemma existsb_map_to_list (m : gmap string string) :
  existsb (fun kv => String.eqb kv.2 "") (map_to_list m) = true <->
  exists k, m !! k = Some "".
Proof.
  rewrite existsb_exists. split.
  - intros ([k v] & Hin & Hv). apply String.eqb_eq in Hv. cbn in Hv. subst v.
    exists k. by apply elem_of_map_to_list, list_elem_of_In.
  - intros [k Hk]. exists (k, ""). split; [|done].
    by apply list_elem_of_In, elem_of_map_to_list.
Qed.

Lemma load_seen_insert key v (m : gmap string string) :
  m !! key = Some "" -> config.load_seen key v m = <[key := v]> m.
Proof.
  intros Hm. unfold config.load_seen. destruct (String.eqb_spec v "") as [->|]; [|done].
  cbn. symmetry. by apply insert_id.
Qed.

Lemma load_field_set (set : config.Config -> string -> config.Config) v c :
  set c "" = c -> config.load_field set v c = set c v.
Proof.
  intros Hc. unfold config.load_field. by destruct (String.eqb_spec v "") as [->|].
Qed.

(** The slot of a variable in [parseError] still holds the empty string when
    its block is reached: the blocks before it wrote other keys. *)
Ltac load_seen_slot :=
  rewrite ?lookup_insert_ne by done; reflexivity.

(** What [NewConfig] computes before its final test: the map [parseError]
    holds the value of each variable, and the configuration holds them in
    its fields. *)
Lemma NewConfig_unfold env :
  let g := config.Getenv env in
  config.NewConfig env
  = if existsb (fun kv => String.eqb kv.2 "")
               (map_to_list (list_to_map (map (fun k => (k, g k)) required_vars)
                             : gmap string string))
    then None
    else Some (config.mkConfig
                 (config.mkSetting "" "")
                 (config.mkGRPC (g config.GPRC_HOST) (g config.GRPC_PORT) 0 0 0)
                 (config.mkLogger false false "" "" "blueprint.log")
                 (config.mkRedis (g config.REDIS_URL) (g config.REDIS_PASSWORD) "" "" 0 0 0 0)
                 (config.mkMySQL (g config.MYSQL_HOST) (g config.MYSQL_PORT)
                                 (g config.MYSQL_USER) (g config.MYSQL_PASSWORD) "")).
Proof.
  intros g. unfold config.NewConfig. cbv zeta. fold g.
  rewrite (load_field_set config.set_RedisAddr) by done.
  rewrite (load_field_set config.set_RedisPassword) by done.
  rewrite (load_field_set config.set_GRPC_Host) by done.
  rewrite (load_field_set config.set_GRPC_Port) by done.
  rewrite (load_field_set config.set_MysqlHost) by done.
  rewrite (load_field_set config.set_MysqlPort) by done.
  rewrite (load_field_set config.set_MysqlUser) by done.
  rewrite (load_field_set config.set_MysqlPassword) by done.
  rewrite (load_seen_insert config.REDIS_URL) by load_seen_slot.
  rewrite (load_seen_insert config.REDIS_PASSWORD) by load_seen_slot.
  rewrite (load_seen_insert config.GPRC_HOST) by load_seen_slot.
  rewrite (load_seen_insert config.GRPC_PORT) by load_seen_slot.
  rewrite (load_seen_insert config.MYSQL_HOST) by load_seen_slot.
  rewrite (load_seen_insert config.MYSQL_PORT) by load_seen_slot.
  rewrite (load_seen_insert config.MYSQL_USER) by load_seen_slot.
  rewrite (load_seen_insert config.MYSQL_PASSWORD) by load_seen_slot.
  reflexivity.
Qed.

End ConfigFacts.

Lemma required_lookup env k :
  (list_to_map (map (fun k => (k, config.Getenv env k)) required_vars)
   : gmap string string) !! k = Some "" <->
  In k required_vars /\ config.Getenv env k = "".
Proof.
  rewrite <- elem_of_list_to_map.
  - rewrite list_elem_of_In, in_map_iff. split.
    + intros (k0 & [= -> E] & Hin). by rewrite E.
    + intros [Hin E]. exists k. by rewrite E.
  - rewrite <- list_fmap_compose. apply (bool_decide_unpack _). by vm_compute.
Qed.

Lemma NewConfig_spec (env : gmap string string) :
  let g := config.Getenv env in
  (is_Some (config.NewConfig env) <-> Forall (fun k => g k <> "") required_vars) /\
  (forall cfg,
      config.NewConfig env = Some cfg ->
      cfg = config.mkConfig
              (config.mkSetting "" "")
              (config.mkGRPC (g config.GPRC_HOST) (g config.GRPC_PORT) 0 0 0)
              (config.mkLogger false false "" "" "blueprint.log")
              (config.mkRedis (g config.REDIS_URL) (g config.REDIS_PASSWORD) "" "" 0 0 0 0)
              (config.mkMySQL (g config.MYSQL_HOST) (g config.MYSQL_PORT)
                              (g config.MYSQL_USER) (g config.MYSQL_PASSWORD) "")).
Proof.
  intros g. rewrite NewConfig_unfold. cbv zeta. fold g.
  destruct (existsb _ _) eqn:E.
  - apply existsb_map_to_list in E as [k Hk]. apply required_lookup in Hk as [Hin Hk].
    split; [|done]. split; [by intros [? ?]|].
    rewrite Forall_forall. intros Hall. exfalso.
    by apply (Hall k); [apply list_elem_of_In|].
  - split; [|by intros cfg [= <-]]. split; [|by eauto].
    intros _. apply Forall_forall. intros k Hin%list_elem_of_In Hk.
    assert (existsb (fun kv => String.eqb kv.2 "")
                    (map_to_list (list_to_map (map (fun k => (k, g k)) required_vars)
                                  : gmap string string)) = true) as Ht.
    { apply existsb_map_to_list. exists k. apply required_lookup. split; assumption. }
    rewrite Ht in E. discriminate E.
Qed.

(** X21.  [NewConfig] returns a configuration exactly when each of the eight
    variables it reads is set to a non-empty value; a variable set to the
    empty string counts as missing, and any missing variable makes it panic.
    The configuration it returns holds the eight values, the log file name
    "blueprint.log" and nothing else: the [Setting] it builds (version and
    locale path) is never stored, so both fields stay empty. *)
Theorem X21_NewConfig_needs_every_variable (env : gmap string string) :
  let g := config.Getenv env in
  (is_Some (config.NewConfig env) <-> Forall (fun k => g k <> "") required_vars) /\
  (forall cfg,
      config.NewConfig env = Some cfg ->
      cfg = config.mkConfig
              (config.mkSetting "" "")
              (config.mkGRPC (g config.GPRC_HOST) (g config.GRPC_PORT) 0 0 0)
              (config.mkLogger false false "" "" "blueprint.log")
              (config.mkRedis (g config.REDIS_URL) (g config.REDIS_PASSWORD) "" "" 0 0 0 0)
              (config.mkMySQL (g config.MYSQL_HOST) (g config.MYSQL_PORT)
                              (g config.MYSQL_USER) (g config.MYSQL_PASSWORD) "")).
Proof. exact (NewConfig_spec env). Qed.

(** X22.  The options of the Redis client never carry the password:
    [NewConfig] insists on a non-empty [REDIS_PASSWORD] and stores it, but
    [buildOptions] does not copy it, so the options built from any
    configuration that [NewConfig] returns have an empty password, the
    address [REDIS_URL], and the default pool (size 100, 10 idle
    connections, 30 s timeout). *)
Theorem X22_buildOptions_drops_the_password
  (env : gmap string string) (cfg : config.Config) :
  config.NewConfig env = Some cfg ->
  config.RedisPassword (config.Config_Redis cfg) = config.Getenv env config.REDIS_PASSWORD /\
  config.Getenv env config.REDIS_PASSWORD <> "" /\
  redis.buildOptions cfg
  = redis.mkRedisOptions (config.Getenv env config.REDIS_URL) "" 0 100 10 (30 * Second)
                         (5 * Second) (3 * Second) (3 * Second) 3 0 0 32768 32768 3.
Proof.
  intros Hcfg.
  destruct (NewConfig_spec env) as [Hsome Hval].
  assert (Forall (fun k => config.Getenv env k <> "") required_vars) as Hall
      by (apply Hsome; eauto).
  rewrite (Hval cfg Hcfg). cbn [config.Config_Redis config.RedisPassword].
  rewrite Forall_forall in Hall.
  assert (config.Getenv env config.REDIS_URL <> "") as Hurl
      by (apply Hall, list_elem_of_In; do 2 right; by left).
  assert (config.Getenv env config.REDIS_PASSWORD <> "") as Hpw
      by (apply Hall, list_elem_of_In; do 3 right; by left).
  split; [done|]. split; [done|].
  unfold redis.buildOptions. cbn [config.Config_Redis config.RedisAddr config.PoolSize
                                  config.MinIdleConn config.PoolTimeout].
  destruct (String.eqb_spec (config.Getenv env config.REDIS_URL) ""); [done|].
  reflexivity.
Qed.

Example NewConfig_examples :
  is_Some (config.NewConfig env_example) /\
  config.NewConfig (delete "REDIS_PASSWORD" env_example) = None /\
  config.NewConfig (<["REDIS_PASSWORD" := ""]> env_example) = None.
Proof. vm_compute. repeat split; eauto. Qed.

Lemma X22_buildOptions_drops_the_password_witness :
  exists cfg,
    config.NewConfig env_example = Some cfg /\
    redis.Password (redis.buildOptions cfg) = "" /\
    config.RedisPassword (config.Config_Redis cfg) = "null".
Proof.
  destruct (config.NewConfig env_example) as [cfg|] eqn:E; [|by vm_compute in E].
  exists cfg. split; [done|].
  destruct (X22_buildOptions_drops_the_password env_example cfg E) as (Hpw & _ & Hopts).
  split; [by rewrite Hopts|]. by rewrite Hpw.
Defined.

(* ===================================================================== *)
(** ** The further properties at concrete inputs *)
(* ===================================================================== *)

Lemma append_length (a b : string) :
  String.length (a +:+ b) = (String.length a + String.length b)%nat.
Proof. induction a as [|ch a IH]; simpl; [done|]. by rewrite IH. Qed.

Lemma substring_prefix (a b : string) : substring 0 (String.length a) (a +:+ b) = a.
Proof.
  induction a as [|ch a IH]; simpl; [by destruct b|]. by rewrite IH.
Qed.

Lemma substring_all (b : string) : substring 0 (String.length b) b = b.
Proof. induction b as [|ch b IH]; simpl; [done|]. by rewrite IH. Qed.

Lemma substring_suffix (a b : string) :
  substring (String.length a) (String.length b) (a +:+ b) = b.
Proof. induction a as [|ch a IH]; simpl; [apply substring_all|apply IH]. Qed.

(** The codec of the examples decodes what it encodes. *)
Lemma quoted_shape (v : string) :
  let data := dq +:+ v +:+ dq in
  String.length data = S (S (String.length v)) /\
  substring 0 1 data = dq /\
  substring (S (String.length v)) 1 data = dq /\
  substring 1 (String.length v) data = v.
Proof.
  change (dq +:+ v +:+ dq) with (String "034" (v +:+ dq)). cbv zeta.
  split; [|split; [|split]].
  - simpl. rewrite append_length. simpl. lia.
  - simpl. by destruct (v +:+ dq).
  - simpl. apply (substring_suffix v dq).
  - simpl. apply substring_prefix.
Qed.

Lemma string_Codec_lawful : lawful string.
Proof.
  intros v data [= <-]. cbn [json_Unmarshal string_Codec]. unfold quote_Unmarshal.
  destruct (quoted_shape v) as (Hlen & Hfirst & Hlast & Hmid).
  rewrite Hlen. cbn [Nat.leb Nat.sub andb]. rewrite Nat.sub_0_r, Hfirst, Hlast, Hmid.
  by rewrite String.eqb_refl.
Qed.

Lemma CallResponse_Codec_lawful : lawful CallResponse.
Proof.
  intros [m] data Hm. cbn [json_Marshal json_Unmarshal CallResponse_Codec Msg] in *.
  pose proof (string_Codec_lawful m data Hm) as Hu.
  cbn [json_Unmarshal string_Codec] in Hu. by rewrite Hu.
Qed.

Lemma X6_Set_with_negative_MaxRetries_is_silent_witness :
  Cache_Set (V := string) cache_no_retry "k" "v" = (cache_no_retry, None).
Proof.
  refine (proj2 (X6_Set_with_negative_MaxRetries_is_silent
                   (V := string) mem_empty (mkOptions "" 0 (-1)) "k" "v"
                   (dq +:+ "v" +:+ dq) _ _)).
  - reflexivity.
  - reflexivity.
Defined.


Lemma X8_SetBatch_sends_nothing_unless_all_serialize_witness :
  Cache_SetBatch cache_empty [("a", Some "1"); ("b", None); ("c", Some "3")] Minute
  = (cache_empty,
     Some (errors_Wrap (errors_New "json: unsupported type: chan int")
                       "failed to marshal value for key b")).
Proof.
  apply (X8_SetBatch_sends_nothing_unless_all_serialize
           cache_empty [("a", Some "1")] [("c", Some "3")] "b" None Minute).
  - repeat constructor. eexists. reflexivity.
  - reflexivity.
Defined.

Lemma X9_SetBatch_counts_all_or_nothing_witness :
  (Cache_SetBatch (V := string) cache_empty [("a", "1"); ("b", "2")] Minute).2 = None.
Proof.
  pose proof (X9_SetBatch_counts_all_or_nothing
                (V := string) cache_empty [("a", "1"); ("b", "2")]
                [("blueprint:a", dq +:+ "1" +:+ dq); ("blueprint:b", dq +:+ "2" +:+ dq)]
                Minute) as Hx.
  destruct Hx as (_ & _ & _ & Hiff & _).
  - repeat constructor.
  - apply Hiff. vm_compute. repeat constructor.
Defined.

Lemma X10_GetBatch_failure_changes_nothing_witness :
  (Cache_GetBatch (V := string) cache_flaky ["k"; "z"] ∅).1.2 = ∅ /\
  stats (Cache_GetBatch (V := string) cache_flaky ["k"; "z"] ∅).1.1 = stats cache_flaky.
Proof.
  destruct (X10_GetBatch_failure_changes_nothing (V := string) cache_flaky ["k"; "z"] ∅)
    as (Hd & Hs & _).
  - vm_compute. discriminate.
  - by split.
Defined.


Lemma X12_Delete_succeeds_iff_present_and_distinct_witness :
  (Cache_Delete cache_two_keys ["a"; "a"]).2 <> None.
Proof.
  assert (["a"; "a"] <> []) as Hne by discriminate.
  destruct (X12_Delete_succeeds_iff_present_and_distinct cache_two_keys ["a"; "a"]
                                                         eq_refl Hne) as [Hiff _].
  intros Hok. apply Hiff in Hok as [Hnd _].
  apply NoDup_cons in Hnd as [Hnotin _]. apply Hnotin. by left.
Defined.


Lemma X14_invalid_request_touches_only_request_counters_witness :
  Cache (Call handler_empty (mkEnv 0 5 None) (Some (mkCallRequest ""))).1
  = Cache handler_empty.
Proof.
  refine (proj1 (proj2 (proj2 (X14_invalid_request_touches_only_request_counters
                                 handler_empty (mkEnv 0 5 None) (Some (mkCallRequest ""))
                                 (errors_New "name is required") _)))).
  reflexivity.
Defined.

Lemma X15_rate_limited_request_reaches_no_cache_witness :
  (Call handler_saturated (mkEnv 100 5 None) (Some (mkCallRequest "alice"))).2
  = (None, Some (status_Error ResourceExhausted "rate limit exceeded")).
Proof.
  refine (proj1 (X15_rate_limited_request_reaches_no_cache
                   handler_saturated (mkEnv 100 5 None) (mkCallRequest "alice") _ _)).
  - reflexivity.
  - vm_compute. reflexivity.
Defined.

Lemma X16_cache_hit_is_returned_as_is_witness :
  (Call handler_cached (mkEnv 0 5 (Some (errors_New "context canceled")))
        (Some (mkCallRequest "Alice"))).2
  = (Some (mkCallResponse "hi"), None).
Proof.
  refine (proj1 (X16_cache_hit_is_returned_as_is
                   handler_cached (mkEnv 0 5 (Some (errors_New "context canceled")))
                   (mkCallRequest "Alice") (mkCallResponse "hi") _ _ _)).
  - reflexivity.
  - vm_compute. reflexivity.
  - vm_compute. reflexivity.
Defined.

Lemma X17_cancelled_context_fails_without_caching_witness :
  (Call handler_empty (mkEnv 0 5 (Some (errors_New "context canceled")))
        (Some (mkCallRequest "Alice"))).2
  = (None, Some (status_Error Internal "internal server error")).
Proof.
  refine (proj1 (X17_cancelled_context_fails_without_caching
                   handler_empty (mkEnv 0 5 (Some (errors_New "context canceled")))
                   (mkCallRequest "Alice") (errors_New "context canceled") _ _ _ _)).
  - reflexivity.
  - vm_compute. reflexivity.
  - intros cached. vm_compute. discriminate.
  - reflexivity.
Defined.


Lemma X19_average_stays_within_samples_witness :
  0 <= AvgResponseTime (metrics (Call handler_empty (mkEnv 0 5 None) None).1) <= 10.
Proof.
  refine (proj1 (X19_average_stays_within_samples handler_empty (mkEnv 0 5 None) None 10 _ _ _)).
  - vm_compute. split; discriminate.
  - vm_compute. split; discriminate.
  - reflexivity.
Defined.

Lemma X20_call_101_is_refused_witness :
  let alice := mkCallRequest "alice" in
  (Call (Calls (NewBlueprint cache_empty) (map (fun e => (e, Some alice)) envs_burst)).1
        (mkEnv 100 5 None) (Some alice)).2
  = (None, Some (status_Error ResourceExhausted "rate limit exceeded")).
Proof.
  intros alice.
  refine (X20_call_101_is_refused cache_empty alice envs_burst (mkEnv 100 5 None) _ _ _).
  - reflexivity.
  - reflexivity.
  - apply (bool_decide_unpack _). by vm_compute.
Defined.

